(** * SMHI event viewer: the enrichment pipeline and the query layer

    A shallow embedding of [geocode_events.py] (normalisation of the
    coordinate columns, the cache-backed [fill_lat_lon] closure and the
    statistics of [main]) and of the data part of [app.py] ([load_events],
    the year/decade labels, the map-mode and time-lapse masks).

    Conventions.
    - A DataFrame is a list of rows in index order; a cell is a Python
      scalar ([pyval]).  Floats are IEEE binary64 values in the
      representation of the Standard Library's [SpecFloat].
    - A Python string is a [string] of code points below 256 (Latin-1,
      which holds the Swedish alphabet); [str.strip], [str.lower] and
      [str.replace] act character by character.
    - A call that may raise returns a [res]; [try ... except Exception] is a
      match on that result.
    - The dictionaries [geo_cache] and [label_to_years] are [gmap]s keyed by
      strings; the [stats] dictionary is a record of counters.
    - Printing, spreadsheet and database access and the map widgets are not
      modelled. *)

From Stdlib Require Import ZArith String Ascii SpecFloat.
From stdpp Require Import base option list gmap strings sorting pretty.

(* stdpp's solvers clear hypotheses by guessed names. *)
#[local] Set Warnings "-clear-no-such-hyp".

Local Open Scope string_scope.
Local Open Scope Z_scope.

(* ===================================================================== *)
(** * Python and pandas values                                            *)
(* ===================================================================== *)

Module Py.

(** Python's [float]. *)
Definition float : Type := spec_float.

Definition is_nan (x : float) : bool :=
  match x with S754_nan => true | _ => false end.

(** Exceptions the modelled builtins raise. *)
Inductive exn : Type :=
| ValueError | TypeError | OverflowError
| GeocoderServiceError.

Inductive res (A : Type) : Type :=
| Ret (a : A)
| Raise (e : exn).
Arguments Ret {A} a.
Arguments Raise {A} e.

Definition bind {A B : Type} (m : res A) (k : A → res B) : res B :=
  match m with
  | Ret a => k a
  | Raise e => Raise e
  end.

(** [try: body except Exception: handler]. *)
Definition try_except {A : Type} (body : res A) (handler : exn → res A) : res A :=
  match body with
  | Ret a => Ret a
  | Raise e => handler e
  end.

(** Scalars found in a cell. [PyNA] stands for [pd.NaT] and [pd.NA];
    [PyObj] for any other scalar object (a [Timestamp], a [time], ...). *)
Inductive pyval : Type :=
| PyNone
| PyNA
| PyBool (b : bool)
| PyInt (n : Z)
| PyFloat (x : float)
| PyStr (s : string)
| PyObj.

(** [pd.isna(val)] on a scalar. *)
Definition pd_isna (val : pyval) : bool :=
  match val with
  | PyNone | PyNA => true
  | PyFloat x => is_nan x
  | _ => false
  end.

Definition pd_notna (val : pyval) : bool := negb (pd_isna val).

(** [val == ""]. Only reached when [pd.isna(val)] is false. *)
Definition eq_empty_str (val : pyval) : bool :=
  match val with
  | PyStr s => bool_decide (s = "")
  | _ => false
  end.

(** ** Strings *)

(** [str.isspace] on one character: tab to carriage return, the four
    separators, the blank, NEL and the no-break space. *)
Definition isspace (c : ascii) : bool :=
  match c with
  | "009" | "010" | "011" | "012" | "013"
  | "028" | "029" | "030" | "031" | " "
  | "133" | "160" => true
  | _ => false
  end%char.

(** [str.lower] on one character: A to Z, and the capital letters of
    Latin-1 (192 to 222 but for the multiplication sign), move up by 32. *)
Definition lower_char (c : ascii) : ascii :=
  let n := nat_of_ascii c in
  if ((65 <=? n) && (n <=? 90)
      || (192 <=? n) && (n <=? 222) && negb (n =? 215))%nat
  then ascii_of_nat (n + 32)
  else c.

Fixpoint str_map (f : ascii → ascii) (s : string) : string :=
  match s with
  | EmptyString => EmptyString
  | String c s' => String (f c) (str_map f s')
  end.

Fixpoint lstrip (s : string) : string :=
  match s with
  | EmptyString => EmptyString
  | String c s' => if isspace c then lstrip s' else s
  end.

Fixpoint rstrip (s : string) : string :=
  match s with
  | EmptyString => EmptyString
  | String c s' =>
      match rstrip s' with
      | EmptyString => if isspace c then EmptyString else String c EmptyString
      | t => String c t
      end
  end.

(** [s.strip()] *)
Definition strip (s : string) : string := rstrip (lstrip s).

(** [s.lower()] *)
Definition lower (s : string) : string := str_map lower_char s.

(** [s.replace(old, new)] for one-character [old] and [new]. *)
Definition replace (old new : ascii) (s : string) : string :=
  str_map (λ c, if bool_decide (c = old) then new else c) s.

(** ** Numbers *)

(** [float(n)] for an [int]: round to nearest even, [OverflowError] when the
    value is out of range. *)
Definition float_of_int (n : Z) : res float :=
  match binary_normalize 53 1024 n 0 false with
  | S754_infinity _ => Raise OverflowError
  | x => Ret x
  end.

Section Builtins.
(** [float(s)] for a string: the parser of the interpreter, [None] when it
    raises [ValueError]. *)
Variable float_of_str : string → option float.

(** The builtin [float(val)]. *)
Definition py_float (val : pyval) : res float :=
  match val with
  | PyFloat x => Ret x
  | PyInt n => float_of_int n
  | PyBool b => float_of_int (if b then 1 else 0)
  | PyStr s => match float_of_str s with
               | Some x => Ret x
               | None => Raise ValueError
               end
  | PyNone | PyNA | PyObj => Raise TypeError
  end.
End Builtins.

(** A reference instance of the string parser, for running the model:
    plain decimal literals [[+-]digits[.digits]], read exactly and rounded
    once by the division (so it agrees with the interpreter as long as the
    digits fit 53 bits and there are at most 22 after the point). Exponents,
    [inf], [nan], blanks and underscores are not read. *)
Definition digit (c : ascii) : option Z := Z.of_nat <$> Ascii.is_nat c.

Fixpoint read_digits (s : string) (m : Z) (n : nat) : Z * nat * string :=
  match s with
  | String c s' =>
      match digit c with
      | Some d => read_digits s' (10 * m + d) (S n)
      | None => (m, n, s)
      end
  | EmptyString => (m, n, s)
  end.

Definition decimal_of_str (s : string) : option float :=
  let '(neg, s) := match s with
                   | String "-" s' => (true, s')
                   | String "+" s' => (false, s')
                   | _ => (false, s)
                   end%char in
  let '(m, n1, s) := read_digits s 0 0 in
  let '(m, n2, s) := match s with
                     | String "." s' => read_digits s' m 0
                     | _ => (m, 0%nat, s)
                     end%char in
  if bool_decide (s = "") && (0 <? n1 + n2)%nat then
    let q := SFdiv 53 1024 (binary_normalize 53 1024 m 0 false)
                   (binary_normalize 53 1024 (10 ^ Z.of_nat n2) 0 false) in
    Some (if neg then SFopp q else q)
  else None.

End Py.

(* ===================================================================== *)
(** * geocode_events.py                                                   *)
(* ===================================================================== *)

Module Geocode.
Import Py.

Definition COUNTRY_SUFFIX : string := ", Sweden".
Definition PROGRESS_EVERY_N_QUERIES : nat := 25.

Section CleanNumber.
Variable float_of_str : string → option float.

(** [clean_number(val)]: the returned [option] is Python's [None] or a
    float. *)
Definition clean_number (val : pyval) : res (option float) :=
  if pd_isna val || eq_empty_str val then Ret None
  else
    let val := match val with
               | PyStr s => PyStr (replace "," "." (strip s))
               | _ => val
               end in
    try_except
      (bind (py_float float_of_str val) (λ x, Ret (Some x)))
      (λ _, Ret None).
End CleanNumber.

(** ** The events table *)

(** One row of [events]. [Location] is what [row.get("Location")] returns
    ([PyNone] when the sheet has no such column); [columns] holds every
    other column of the sheet. *)
Record event : Type := Event {
  Sheet : string;
  Location : pyval;
  Date : pyval;
  Latitude : pyval;
  Longitude : pyval;
  columns : list (string * pyval)
}.

(** The row with its two coordinate cells replaced. *)
Definition set_lat_lon (row : event) (c : pyval * pyval) : event :=
  {| Sheet := Sheet row; Location := Location row; Date := Date row;
     Latitude := c.1; Longitude := c.2; columns := columns row |}.

(** A cell of the mask [events["Latitude"].isna() | events["Longitude"].isna()]. *)
Definition missing (row : event) : bool :=
  pd_isna (Latitude row) || pd_isna (Longitude row).

(** [mask.sum()] *)
Definition count_missing (events : list event) : nat :=
  length (filter (λ row, missing row = true) events).

(** ** The run-scoped context: [geo_cache] and [stats] *)

Record stats_t : Type := Stats {
  rows_total : nat;
  rows_with_missing : nat;
  cache_hits : nat;
  api_queries : nat;
  locations_geocoded : nat;
  locations_unresolved : nat
}.

Record ctx : Type := Ctx {
  geo_cache : gmap string (pyval * pyval);
  stats : stats_t
}.

Definition hit (s : stats_t) : stats_t :=
  {| rows_total := rows_total s; rows_with_missing := rows_with_missing s;
     cache_hits := S (cache_hits s); api_queries := api_queries s;
     locations_geocoded := locations_geocoded s;
     locations_unresolved := locations_unresolved s |}.

Definition queried (s : stats_t) : stats_t :=
  {| rows_total := rows_total s; rows_with_missing := rows_with_missing s;
     cache_hits := cache_hits s; api_queries := S (api_queries s);
     locations_geocoded := locations_geocoded s;
     locations_unresolved := locations_unresolved s |}.

Definition geocoded (s : stats_t) : stats_t :=
  {| rows_total := rows_total s; rows_with_missing := rows_with_missing s;
     cache_hits := cache_hits s; api_queries := api_queries s;
     locations_geocoded := S (locations_geocoded s);
     locations_unresolved := locations_unresolved s |}.

Definition unresolved (s : stats_t) : stats_t :=
  {| rows_total := rows_total s; rows_with_missing := rows_with_missing s;
     cache_hits := cache_hits s; api_queries := api_queries s;
     locations_geocoded := locations_geocoded s;
     locations_unresolved := S (locations_unresolved s) |}.

(** What the geocoder answers with: geopy's [Location]. *)
Record location : Type := GeoLocation { latitude : float; longitude : float }.

(** The cache key [fill_lat_lon] computes for a row, when it gets as far as
    the cache: the row misses a coordinate and [Location] is a string that is
    not blank. Such a call is a resolution request. *)
Definition request_key (row : event) : option string :=
  if pd_notna (Latitude row) && pd_notna (Longitude row) then None
  else
    match Location row with
    | PyStr place =>
        if bool_decide (strip place = "") then None
        else Some (lower (strip place))
    | _ => None
    end.

(** [isinstance(place, str) and place.strip()]: the row has a usable place
    name. *)
Definition usable_location (row : event) : bool :=
  match Location row with
  | PyStr place => negb (bool_decide (strip place = ""))
  | _ => false
  end.

(** How many rows of [events] are resolution requests for [key]. *)
Definition requests_for (key : string) (events : list event) : nat :=
  length (filter (λ row, request_key row = Some key) events).

(** The distinct keys requested by the rows of [events]. *)
Definition request_keys (events : list event) : gset string :=
  list_to_set (omap request_key events).

(** Both coordinates present, or both missing. *)
Definition paired (c : pyval * pyval) : bool :=
  bool_decide (pd_isna c.1 = pd_isna c.2).

Section Pipeline.
(** The rate-limited [geocode] callable: a match, [None] for no match, or
    an exception (provider error, retries exhausted). Within one run a
    query text is sent at most once, so a function of the text covers every
    provider. *)
Variable geocode : string → res (option location).

(** The closure [fill_lat_lon(row)], with [geo_cache] and [stats] threaded
    through. The periodic progress print is left out. *)
Definition fill_lat_lon (st : ctx) (row : event) : (pyval * pyval) * ctx :=
  let lat := Latitude row in
  let lon := Longitude row in
  let place := Location row in
  if pd_notna lat && pd_notna lon then ((lat, lon), st)
  else
    match place with
    | PyStr place =>
        if bool_decide (strip place = "") then ((lat, lon), st)
        else
          let key := lower (strip place) in
          match geo_cache st !! key with
          | Some cached =>
              (cached, {| geo_cache := geo_cache st; stats := hit (stats st) |})
          | None =>
              let stats1 := queried (stats st) in
              let query := place +:+ COUNTRY_SUFFIX in
              let loc := match geocode query with
                         | Ret loc => loc
                         | Raise _ => None
                         end in
              let '(result, stats2) :=
                match loc with
                | Some loc =>
                    ((PyFloat (latitude loc), PyFloat (longitude loc)),
                     geocoded stats1)
                | None => ((lat, lon), unresolved stats1)
                end in
              (result, {| geo_cache := <[key := result]> (geo_cache st);
                          stats := stats2 |})
          end
    | _ => ((lat, lon), st)
    end.

(** [events.apply(lambda r: pd.Series(fill_lat_lon(r)), axis=1)]: the
    closure is called on every row in index order. *)
Fixpoint apply_fill_lat_lon (st : ctx) (events : list event)
  : list (pyval * pyval) * ctx :=
  match events with
  | [] => ([], st)
  | row :: events =>
      let '(c, st) := fill_lat_lon st row in
      let '(cs, st) := apply_fill_lat_lon st events in
      (c :: cs, st)
  end.

(** [events[["Latitude", "Longitude"]] = ...] *)
Definition assign_lat_lon (events : list event) (cs : list (pyval * pyval))
  : list event :=
  zip_with set_lat_lon events cs.

(** What the cache-miss branch of [fill_lat_lon] computes: the coordinates
    and the counters after the one query. *)
Definition miss_result (row : event) (place : string) : pyval * pyval :=
  match geocode (place +:+ COUNTRY_SUFFIX) with
  | Ret (Some loc) => (PyFloat (latitude loc), PyFloat (longitude loc))
  | _ => (Latitude row, Longitude row)
  end.

Definition miss_stats (s : stats_t) (place : string) : stats_t :=
  match geocode (place +:+ COUNTRY_SUFFIX) with
  | Ret (Some loc) => geocoded (queried s)
  | _ => unresolved (queried s)
  end.

(** The three ways a call of [fill_lat_lon] goes: the row passes through,
    its key is found in the cache, or its place is looked up. *)
Inductive fill_outcome (st : ctx) (row : event) : (pyval * pyval) * ctx → Prop :=
| fill_passes :
    request_key row = None →
    fill_outcome st row ((Latitude row, Longitude row), st)
| fill_hits key cached :
    request_key row = Some key →
    geo_cache st !! key = Some cached →
    fill_outcome st row (cached, Ctx (geo_cache st) (hit (stats st)))
| fill_misses key place :
    request_key row = Some key →
    geo_cache st !! key = None →
    Location row = PyStr place →
    key = lower (strip place) →
    fill_outcome st row
      (miss_result row place,
       Ctx (<[key := miss_result row place]> (geo_cache st))
           (miss_stats (stats st) place)).

(** By how much [stats["api_queries"]] grows, in a run over [events] from
    [st], during the resolution requests for [key]. *)
Fixpoint queries_for (key : string) (st : ctx) (events : list event) : nat :=
  match events with
  | [] => 0
  | row :: events =>
      let st' := (fill_lat_lon st row).2 in
      ((if bool_decide (request_key row = Some key)
        then api_queries (stats st') - api_queries (stats st)
        else 0)
       + queries_for key st' events)%nat
  end.

(** The same for [stats["cache_hits"]]. *)
Fixpoint hits_for (key : string) (st : ctx) (events : list event) : nat :=
  match events with
  | [] => 0
  | row :: events =>
      let st' := (fill_lat_lon st row).2 in
      ((if bool_decide (request_key row = Some key)
        then cache_hits (stats st') - cache_hits (stats st)
        else 0)
       + hits_for key st' events)%nat
  end.

Variable float_of_str : string → option float.

(** The cell that holds what [clean_number] returned. *)
Definition cell_of (r : option float) : pyval :=
  match r with
  | Some x => PyFloat x
  | None => PyNone
  end.

(** [events[col] = events[col].apply(clean_number)] for both coordinate
    columns, row by row. *)
Definition normalize_row (row : event) : res event :=
  bind (clean_number float_of_str (Latitude row)) (λ lat,
  bind (clean_number float_of_str (Longitude row)) (λ lon,
  Ret (set_lat_lon row (cell_of lat, cell_of lon)))).

Fixpoint normalize (events : list event) : res (list event) :=
  match events with
  | [] => Ret []
  | row :: events =>
      bind (normalize_row row) (λ row,
      bind (normalize events) (λ events, Ret (row :: events)))
  end.

(** What a run of [main] leaves behind: the table it writes, the [stats]
    dictionary and [missing_after]. *)
Record outcome : Type := Outcome {
  written : list event;
  final_stats : stats_t;
  missing_after : nat
}.

(** [main()], from the concatenated sheets to the table that is written
    out (steps 2 to 4). *)
Definition main (events : list event) : res outcome :=
  bind (normalize events) (λ events,
  let n_missing := count_missing events in
  let geo_cache : gmap string (pyval * pyval) := ∅ in
  let stats := {| rows_total := length events;
                  rows_with_missing := n_missing;
                  cache_hits := 0; api_queries := 0;
                  locations_geocoded := 0; locations_unresolved := 0 |} in
  if (0 <? n_missing)%nat then
    let '(cs, st) := apply_fill_lat_lon (Ctx geo_cache stats) events in
    let events := assign_lat_lon events cs in
    Ret {| written := events; final_stats := Geocode.stats st;
           missing_after := count_missing events |}
  else
    Ret {| written := events; final_stats := stats; missing_after := 0 |}).
End Pipeline.

(** ** Reading the sheets *)

(** [df["Sheet"] = sheet] on the rows of one sheet. *)
Definition tag_sheet (sheet : string) (rows : list event) : list event :=
  (λ row, {| Sheet := sheet; Location := Location row; Date := Date row;
             Latitude := Latitude row; Longitude := Longitude row;
             columns := columns row |}) <$> rows.

(** The loop over [xls.sheet_names] that fills [frames]. *)
Definition read_frames (sheets : list (string * list event))
  : list (list event) :=
  (λ '(sheet, rows), tag_sheet sheet rows) <$> sheets.

(** [pd.concat(frames, ignore_index=True)]: the frames one after the other;
    pandas raises [ValueError] when there is none. *)
Definition pd_concat (frames : list (list event)) : res (list event) :=
  match frames with
  | [] => Raise ValueError
  | _ => Ret (concat frames)
  end.

(** Step 1 of [main]: [events] from the sheets of the workbook. *)
Definition read_events (sheets : list (string * list event))
  : res (list event) :=
  pd_concat (read_frames sheets).

(** ** The locations announced before the pass *)

(** [series.unique()]: the distinct values in order of first appearance. *)
Fixpoint unique_from (seen l : list string) : list string :=
  match l with
  | [] => []
  | x :: l =>
      if bool_decide (x ∈ seen) then unique_from seen l
      else x :: unique_from (x :: seen) l
  end.

Definition unique (l : list string) : list string := unique_from [] l.

Section Locations.
(** [str(val)] on a cell that is no string. *)
Variable str_of : pyval → string.

(** One cell of [series.astype(str)]. *)
Definition astype_str (val : pyval) : string :=
  match val with
  | PyStr s => s
  | _ => str_of val
  end.

(** [events.loc[missing_mask, "Location"].dropna().astype(str).str.strip()
    .unique()] *)
Definition locations_to_geocode (events : list event) : list string :=
  unique (strip <$> (astype_str <$>
    filter (λ val, pd_isna val = false)
      (Location <$> filter (λ row, missing row = true) events))).
End Locations.

End Geocode.

(* ===================================================================== *)
(** * app.py                                                              *)
(* ===================================================================== *)

Module App.
Import Py.

(** A parsed [Date] cell. *)
Record timestamp : Type := Timestamp { ts_year : Z; ts_month : Z; ts_day : Z }.

(** A row of the table [events] as [pd.read_sql] returns it, with [Date]
    already through [pd.to_datetime(errors="coerce")] ([None] is [NaT]). *)
Record stored : Type := Stored {
  st_Sheet : option string;
  st_Location : pyval;
  st_Date : option timestamp;
  st_Latitude : pyval;
  st_Longitude : pyval
}.

(** A row of the session table [df]: [year] is [None] where pandas has NaN,
    [Sheet] is [None] where the cell is missing. *)
Record row : Type := Row {
  Sheet : option string;
  Location : pyval;
  Date : option timestamp;
  Latitude : float;
  Longitude : float;
  year : option Z
}.

Section Load.
(** The numeric parser of pandas on a string cell, [None] on failure. *)
Variable float_of_str : string → option float.

(** One cell of [pd.to_numeric(df[col], errors="coerce")]. *)
Definition to_numeric (val : pyval) : float :=
  match py_float float_of_str val with
  | Ret x => x
  | Raise _ => S754_nan
  end.

(** [load_events(db_path)] on the rows read from the database. *)
Definition load_events (table : list stored) : list row :=
  let df := (λ r, (r, to_numeric (st_Latitude r), to_numeric (st_Longitude r)))
              <$> table in
  (* df.dropna(subset=["Latitude", "Longitude"]) *)
  let df := filter (λ '(_, lat, lon), is_nan lat = false ∧ is_nan lon = false) df in
  (* df["year"] = df["Date"].dt.year *)
  (λ '(r, lat, lon),
     {| Sheet := st_Sheet r; Location := st_Location r; Date := st_Date r;
        Latitude := lat; Longitude := lon;
        year := ts_year <$> st_Date r |}) <$> df.
End Load.

(** ** Year and decade labels *)

(** [sorted(...)] of distinct integers. *)
Definition sorted_set (l : list Z) : list Z :=
  merge_sort Z.le (remove_dups l).

(** [sorted(int(y) for y in df["year"].dropna().unique())] *)
Definition all_years (df : list row) : list Z :=
  sorted_set (omap year df).

(** [sorted({(y // 10) * 10 for y in all_years})] *)
Definition decades (df : list row) : list Z :=
  sorted_set ((λ y, (y `div` 10) * 10) <$> all_years df).

(** [f"{d}s"] *)
Definition decade_label (d : Z) : string := pretty d +:+ "s".

Definition decade_labels (df : list row) : list string :=
  decade_label <$> decades df.

Definition year_labels (df : list row) : list string :=
  pretty <$> all_years df.

(** The dictionary [label_to_years], filled by the two loops in order. *)
Definition label_to_years (df : list row) : gmap string (list Z) :=
  let m := foldl (λ m y, <[pretty y := [y]]> m) ∅ (all_years df) in
  foldl (λ m d,
           <[decade_label d :=
               filter (λ y, d ≤ y ∧ y ≤ d + 9) (all_years df)]> m)
        m (decades df).

Definition year_options (df : list row) : list string :=
  decade_labels df ++ year_labels df.

(** The sidebar's resolution of the selected labels to concrete years. *)
Definition selected_years (df : list row) (selected_year_labels : list string)
  : list Z :=
  match selected_year_labels with
  | [] => all_years df
  | _ =>
      sorted_set
        (label ← selected_year_labels;
         default [] (label_to_years df !! label))
  end.

(** [sorted(df["Sheet"].dropna().unique())] *)
Definition type_options (df : list row) : list string :=
  merge_sort String.le (remove_dups (omap Sheet df)).

(** ** Masks *)

(** A cell of [series.isin(values)]; a missing cell is in no list. *)
Definition isin `{EqDecision A} (cell : option A) (values : list A) : bool :=
  match cell with
  | Some a => bool_decide (a ∈ values)
  | None => false
  end.

(** Truth value of [selected_types]: [None] (no [Sheet] column) and the
    empty list are false. *)
Definition truthy {A : Type} (selected : option (list A)) : bool :=
  match selected with
  | Some (_ :: _) => true
  | _ => false
  end.

(** MAP MODE: [mask], row by row. *)
Definition mask (selected_years : list Z) (selected_types : option (list string))
    (r : row) : bool :=
  let mask := isin (year r) selected_years in
  if truthy selected_types
  then mask && isin (Sheet r) (default [] selected_types)
  else mask.

(** [filtered = df[mask]] *)
Definition filtered (df : list row) (selected_years : list Z)
    (selected_types : option (list string)) : list row :=
  filter (λ r, mask selected_years selected_types r = true) df.

(** TIME-LAPSE MODE: [tl_mask], row by row. A missing year compares false. *)
Definition tl_mask (year_tl : Z) (cumulative : bool)
    (selected_types_tl : option (list string)) (r : row) : bool :=
  let tl_mask :=
    if cumulative
    then match year r with Some y => bool_decide (y ≤ year_tl) | None => false end
    else match year r with Some y => bool_decide (y = year_tl) | None => false end in
  if truthy selected_types_tl
  then tl_mask && isin (Sheet r) (default [] selected_types_tl)
  else tl_mask.

(** [df_tl = df[tl_mask]] *)
Definition df_tl (df : list row) (year_tl : Z) (cumulative : bool)
    (selected_types_tl : option (list string)) : list row :=
  filter (λ r, tl_mask year_tl cumulative selected_types_tl r = true) df.

(** ** The two queries as the specification words them *)

(** [year ∈ selectedYears AND category ∈ selectedCategories] *)
Definition spec_map_mode (df : list row) (selectedYears : list Z)
    (selectedCategories : list string) : list row :=
  filter (λ r, isin (year r) selectedYears = true
               ∧ isin (Sheet r) selectedCategories = true) df.

(** [year <= targetYear] if cumulative, else [year == targetYear]. *)
Definition spec_year_test (targetYear : Z) (cumulative : bool) (r : row) : bool :=
  match year r with
  | Some y => if cumulative then bool_decide (y ≤ targetYear)
              else bool_decide (y = targetYear)
  | None => false
  end.

(** [... AND category ∈ selectedCategories] *)
Definition spec_timelapse (df : list row) (targetYear : Z) (cumulative : bool)
    (selectedCategories : list string) : list row :=
  filter (λ r, spec_year_test targetYear cumulative r = true
               ∧ isin (Sheet r) selectedCategories = true) df.

(** ** The caption of the map *)

(** [min(selected_years)] and [max(selected_years)] of a list with head [y]. *)
Definition list_min (y : Z) (l : list Z) : Z := foldr Z.min y l.
Definition list_max (y : Z) (l : list Z) : Z := foldr Z.max y l.

(** The en dash of the caption, as its three bytes. *)
Definition en_dash : string :=
  String (ascii_of_nat 226) (String (ascii_of_nat 128)
    (String (ascii_of_nat 147) "")).

(** [year_text] of MAP MODE. *)
Definition year_text (selected_years : list Z) : string :=
  match selected_years with
  | [] => "all years"
  | y :: rest =>
      if (1 <? length selected_years)%nat
      then pretty (list_min y rest) +:+ en_dash +:+ pretty (list_max y rest)
      else pretty y
  end.

(** ** The counts below the time-lapse map *)

(** [df_tl["Sheet"].value_counts().sort_index()]: for each type that occurs,
    the number of its rows, by type name. *)
Definition type_counts (df_tl : list row) : list (string * nat) :=
  (λ t, (t, length (filter (λ r, Sheet r = Some t) df_tl)))
    <$> merge_sort String.le (remove_dups (omap Sheet df_tl)).

(** ** Colours of the types *)

Definition color_palette : list string :=
  [ "#1f77b4"; "#ff7f0e"; "#2ca02c"; "#d62728"; "#9467bd";
    "#8c564b"; "#e377c2"; "#7f7f7f"; "#bcbd22"; "#17becf" ].

(** [sorted(df["Sheet"].dropna().unique())], or [[]] without the column. *)
Definition all_sheets (df : list row) : list string := type_options df.

(** [{sheet: color_palette[i % len(color_palette)]
      for i, sheet in enumerate(all_sheets)}] *)
Definition sheet_color_map (all_sheets : list string) : gmap string string :=
  foldl (λ m '(i, sheet),
           <[sheet := default "" (color_palette !! (i `mod` length color_palette)%nat)]> m)
        ∅ (imap (λ i sheet, (i, sheet)) all_sheets).

(** [sheet_color_map.get(sheet_name, "#000000")] *)
Definition color_of (all_sheets : list string) (sheet_name : string) : string :=
  default "#000000" (sheet_color_map all_sheets !! sheet_name).

(** ** Columns of the table of details *)

(** [col.lower().startswith("unnamed")] *)
Definition is_unnamed (col : string) : bool := String.prefix "unnamed" (lower col).

(** [numeric_cols_all], from the columns of [df] and whether each has a
    numeric dtype. *)
Definition numeric_cols_all (columns : list (string * bool)) : list string :=
  fst <$> filter (λ '(col, numeric),
                    (col ∉ ["Latitude"; "Longitude"; "year"])
                    ∧ is_unnamed col = false ∧ numeric = true) columns.

Definition core_order : list string :=
  [ "Type of Event"; "Name of Event"; "Date"; "Location";
    "Latitude"; "Longitude" ].

(** [columns_order.remove(x)] when [x] is in the list. *)
Fixpoint list_remove_first (x : string) (l : list string) : list string :=
  match l with
  | [] => []
  | y :: l => if bool_decide (y = x) then l else y :: list_remove_first x l
  end.

(** The columns of [table_df] once [Sheet] and [year] are dropped. *)
Definition table_columns (columns : list string) : list string :=
  filter (λ col, col ∉ ["Sheet"; "year"]) columns.

(** [columns_order], the order in which the table shows its columns. *)
Definition columns_order (table_columns numeric_cols_all : list string)
  : list string :=
  let columns_order := filter (λ c, c ∈ table_columns) core_order in
  let columns_order :=
    foldl (λ order col,
             if bool_decide (col ∈ table_columns ∧ col ∉ order)
             then (order ++ [col])%list else order)
          columns_order numeric_cols_all in
  let columns_order :=
    if bool_decide ("Additional Information" ∈ table_columns)
    then
      ((if bool_decide ("Additional Information" ∈ columns_order)
        then list_remove_first "Additional Information" columns_order
        else columns_order) ++ ["Additional Information"])%list
    else columns_order in
  let missing_cols := filter (λ c, c ∉ columns_order) table_columns in
  (columns_order ++ missing_cols)%list.

End App.

(* ===================================================================== *)
(** * Sample data                                                         *)
(* ===================================================================== *)

Module Samples.
Import Py.

(** 67.875, 20.25, 59.375 and 18.0 as binary64 values. *)
Definition f67 : float := binary_normalize 53 1024 543 (-3) false.
Definition f20 : float := binary_normalize 53 1024 81 (-2) false.
Definition f59 : float := binary_normalize 53 1024 475 (-3) false.
Definition f18 : float := binary_normalize 53 1024 18 0 false.

(** A provider that knows Kiruna, fails on Narvik and finds nothing else. *)
Definition provider (query : string) : res (option Geocode.location) :=
  if bool_decide (query = "Kiruna, Sweden")
  then Ret (Some (Geocode.GeoLocation f67 f20))
  else if bool_decide (query = "Narvik, Sweden")
  then Raise GeocoderServiceError
  else Ret None.

(** A provider that never finds anything. *)
Definition no_match (query : string) : res (option Geocode.location) := Ret None.

Definition sheet_row (sheet : string) (place lat lon : pyval) : Geocode.event :=
  {| Geocode.Sheet := sheet; Geocode.Location := place; Geocode.Date := PyNone;
     Geocode.Latitude := lat; Geocode.Longitude := lon; Geocode.columns := [] |}.

(** Three rows of one place without coordinates, differing in case and
    blanks, and one row of a place the provider does not know. *)
Definition kiruna_rows : list Geocode.event :=
  [ sheet_row "snow" (PyStr "Kiruna") PyNone PyNone;
    sheet_row "wind" (PyStr " kiruna ") PyNone PyNone;
    sheet_row "rain" (PyStr "Atlantis") PyNone PyNone;
    sheet_row "rain" (PyStr "KIRUNA") PyNone PyNone ].

(** Two rows of one place the provider does not know, each with one of its
    two coordinates. *)
Definition half_a : Geocode.event :=
  sheet_row "rain" (PyStr "Atlantis") (PyFloat f59) PyNone.
Definition half_b : Geocode.event :=
  sheet_row "snow" (PyStr "atlantis") PyNone (PyFloat f18).

(** A row with a latitude, no longitude and no location. *)
Definition lonely : Geocode.event :=
  sheet_row "wind" PyNone (PyFloat f59) PyNone.

(** A table as the sheets give it: numbers as text, one row complete. *)
Definition raw_rows : list Geocode.event :=
  [ sheet_row "rain" (PyStr "Kiruna") (PyStr "67,875") (PyStr "20,25");
    sheet_row "snow" (PyStr "Kiruna") (PyStr "") PyNone;
    sheet_row "wind" (PyStr "Narvik") PyNone PyNone;
    sheet_row "wind" PyNone (PyStr "n/a") PyNone ].

Definition stats0 : Geocode.stats_t :=
  {| Geocode.rows_total := 0; Geocode.rows_with_missing := 0;
     Geocode.cache_hits := 0; Geocode.api_queries := 0;
     Geocode.locations_geocoded := 0; Geocode.locations_unresolved := 0 |}.

(** The context a run starts with. *)
Definition ctx0 : Geocode.ctx := Geocode.Ctx ∅ stats0.

(** A session table: five events over two decades and three categories. *)
Definition session_row (y : Z) (sheet : string) : App.row :=
  {| App.Sheet := Some sheet; App.Location := PyStr "Kiruna";
     App.Date := Some (App.Timestamp y 7 1);
     App.Latitude := f67; App.Longitude := f20; App.year := Some y |}.

Definition session : list App.row :=
  [ session_row 1995 "rain"; session_row 1991 "snow"; session_row 2001 "rain";
    session_row 1995 "wind"; session_row 2005 "snow" ].

(** Rows as the database returns them: one complete, one with text in a
    coordinate, two missing a coordinate. *)
Definition db_row (lat lon : pyval) : App.stored :=
  {| App.st_Sheet := Some "rain"; App.st_Location := PyStr "Kiruna";
     App.st_Date := Some (App.Timestamp 1995 7 1);
     App.st_Latitude := lat; App.st_Longitude := lon |}.

Definition db_rows : list App.stored :=
  [ db_row (PyFloat f67) (PyFloat f20);
    db_row PyNone (PyFloat f20);
    db_row (PyStr "59.375") (PyFloat f18);
    db_row (PyFloat f59) (PyFloat S754_nan) ].

(** A workbook of two sheets; the rows come without a sheet tag. *)
Definition workbook : list (string * list Geocode.event) :=
  [ ("rain", [ sheet_row "" (PyStr "Kiruna") PyNone PyNone;
               sheet_row "" (PyStr "Narvik") PyNone PyNone ]);
    ("snow", [ sheet_row "" (PyStr "Kiruna") (PyFloat f67) (PyFloat f20) ]) ].

End Samples.

(* ===================================================================== *)
(** * Properties of geocode_events.py                                     *)
(* ===================================================================== *)

Module GeocodeProofs.
Import Py Geocode.

(** ** Strings *)

Lemma str_map_nil_iff f s : str_map f s = "" ↔ s = "".
Proof. destruct s; simpl; split; congruence. Qed.

Lemma str_map_twice f s : (∀ c, f (f c) = f c) → str_map f (str_map f s) = str_map f s.
Proof. intros Hf. induction s as [|c s IH]; simpl; [done|]. by rewrite Hf, IH. Qed.

Section MapStrip.
Variable f : ascii → ascii.
Hypothesis f_space : ∀ c, isspace (f c) = isspace c.

Lemma lstrip_str_map s : lstrip (str_map f s) = str_map f (lstrip s).
Proof.
  induction s as [|c s IH]; simpl; [done|].
  rewrite f_space. by destruct (isspace c).
Qed.

Lemma rstrip_str_map s : rstrip (str_map f s) = str_map f (rstrip s).
Proof.
  induction s as [|c s IH]; simpl; [done|].
  rewrite IH, f_space.
  destruct (rstrip s); simpl; [by destruct (isspace c)|done].
Qed.

Lemma strip_str_map s : strip (str_map f s) = str_map f (strip s).
Proof. unfold strip. by rewrite lstrip_str_map, rstrip_str_map. Qed.
End MapStrip.

Lemma comma_dot_space c :
  isspace (if bool_decide (c = ","%char) then "."%char else c) = isspace c.
Proof. case_bool_decide; [by subst|done]. Qed.

Lemma comma_dot_twice c :
  (let g := λ c, if bool_decide (c = ","%char) then "."%char else c in
   g (g c) = g c).
Proof. simpl. repeat case_bool_decide; congruence. Qed.

Lemma strip_replace s :
  strip (replace "," "." s) = replace "," "." (strip s).
Proof. apply strip_str_map, comma_dot_space. Qed.

Lemma replace_replace s :
  replace "," "." (replace "," "." s) = replace "," "." s.
Proof. apply str_map_twice, comma_dot_twice. Qed.

(** ** [clean_number] *)

Section CleanNumberFacts.
Variable float_of_str : string → option float.

Lemma clean_number_str s :
  clean_number float_of_str (PyStr s) =
  Ret (if bool_decide (s = "") then None
       else float_of_str (replace "," "." (strip s))).
Proof.
  unfold clean_number; simpl.
  case_bool_decide; [done|]. simpl.
  by destruct (float_of_str _).
Qed.

Lemma clean_number_returns val : ∃ r, clean_number float_of_str val = Ret r.
Proof.
  unfold clean_number.
  destruct (pd_isna val || eq_empty_str val); [by eexists|].
  match goal with |- ∃ r, try_except ?b _ = _ => destruct b end; by eexists.
Qed.

Lemma clean_number_comma s :
  clean_number float_of_str (PyStr s) =
  clean_number float_of_str (PyStr (replace "," "." s)).
Proof.
  rewrite !clean_number_str, strip_replace, replace_replace.
  destruct (decide (s = "")) as [->|Hs]; [done|].
  rewrite !bool_decide_eq_false_2; [done| |done].
  unfold replace. by rewrite str_map_nil_iff.
Qed.

(** C8. [clean_number] returns on every scalar (it never raises). A string
    is read as the same string with each comma written as a dot is: what
    the parser makes of it once it is stripped and its commas are dots, so
    ["48,5"] is what the parser reads in ["48.5"]. A missing value, the
    empty string, a string the parser rejects and an object that is no
    number all yield [None]. *)
Theorem clean_number_total_comma_none :
  (∀ val, ∃ r, clean_number float_of_str val = Ret r) ∧
  (∀ s, clean_number float_of_str (PyStr s) =
        clean_number float_of_str (PyStr (replace "," "." s))) ∧
  (∀ s, s ≠ "" →
        clean_number float_of_str (PyStr s) =
        Ret (float_of_str (replace "," "." (strip s)))) ∧
  clean_number float_of_str (PyStr "48,5") = Ret (float_of_str "48.5") ∧
  (∀ val, pd_isna val = true ∨ val = PyStr "" →
          clean_number float_of_str val = Ret None) ∧
  (∀ s, float_of_str (replace "," "." (strip s)) = None →
        clean_number float_of_str (PyStr s) = Ret None) ∧
  (∀ val e, pd_isna val = false → (∀ s, val ≠ PyStr s) →
            py_float float_of_str val = Raise e →
            clean_number float_of_str val = Ret None).
Proof.
  split_and!.
  - apply clean_number_returns.
  - apply clean_number_comma.
  - intros s Hs. by rewrite clean_number_str, bool_decide_eq_false_2.
  - by rewrite clean_number_str.
  - intros val [Hna| ->]; unfold clean_number; [by rewrite Hna|done].
  - intros s Hs. rewrite clean_number_str, Hs. by case_bool_decide.
  - intros val e Hna Hstr Hraise. unfold clean_number. rewrite Hna.
    destruct val; simpl in *; try done; try by rewrite Hraise.
    by destruct (Hstr s).
Qed.
End CleanNumberFacts.

(** The docstring's example, run with the reference parser: ["48,5"] is
    48.5 = 97 / 2, a blank string and a word are [None]. *)
Lemma clean_number_total_comma_none_witness :
  clean_number decimal_of_str (PyStr "48,5")
    = Ret (Some (binary_normalize 53 1024 97 (-1) false)) ∧
  clean_number decimal_of_str (PyStr "  ") = Ret None ∧
  clean_number decimal_of_str (PyStr "n/a") = Ret None ∧
  clean_number decimal_of_str PyObj = Ret None.
Proof.
  pose proof (clean_number_total_comma_none decimal_of_str)
    as (_ & _ & _ & H485 & _ & Hstr & Hobj).
  split_and!.
  - rewrite H485. vm_compute. reflexivity.
  - apply Hstr. vm_compute. reflexivity.
  - apply Hstr. vm_compute. reflexivity.
  - apply (Hobj PyObj TypeError); [reflexivity|discriminate|reflexivity].
Defined.

(** ** [fill_lat_lon], one call *)

Lemma set_lat_lon_same row : set_lat_lon row (Latitude row, Longitude row) = row.
Proof. by destruct row. Qed.

Lemma request_key_present row : missing row = false → request_key row = None.
Proof.
  unfold missing, request_key, pd_notna. intros H.
  apply orb_false_elim in H as [-> ->]. done.
Qed.

(** Case analysis on a call [fill_lat_lon geocode st row], by the lemma
    [fill_lat_lon_cases] of the section it is used in. *)
Ltac fill_cases_by lem st row :=
  let Hk := fresh "Hk" in
  let Hc := fresh "Hc" in
  let Hp := fresh "Hp" in
  let Hkey := fresh "Hkey" in
  let k := fresh "k" in
  let cached := fresh "cached" in
  let place := fresh "place" in
  destruct (lem st row) as [Hk|k cached Hk Hc|k place Hk Hc Hp Hkey].

Section FillFacts.
Variable geocode : string → res (option location).

Local Abbreviation fill := (fill_lat_lon geocode).
Local Abbreviation apply := (apply_fill_lat_lon geocode).

(** A call that is no resolution request returns the row's own cells and
    touches neither the cache nor the counters. *)
Lemma fill_no_request st row :
  request_key row = None →
  fill st row = ((Latitude row, Longitude row), st).
Proof.
  unfold request_key, fill_lat_lon.
  destruct (pd_notna (Latitude row) && pd_notna (Longitude row)); [done|].
  destruct (Location row); try done.
  by case_bool_decide.
Qed.

Lemma fill_hit st row key cached :
  request_key row = Some key →
  geo_cache st !! key = Some cached →
  fill st row = (cached, Ctx (geo_cache st) (hit (stats st))).
Proof.
  unfold request_key, fill_lat_lon.
  destruct (pd_notna (Latitude row) && pd_notna (Longitude row)); [done|].
  destruct (Location row); try done.
  case_bool_decide; [done|]. intros [= <-] Hc. by rewrite Hc.
Qed.

Lemma fill_miss st row key :
  request_key row = Some key →
  geo_cache st !! key = None →
  ∃ place, Location row = PyStr place ∧ key = lower (strip place) ∧
    fill st row =
      (miss_result geocode row place,
       Ctx (<[key := miss_result geocode row place]> (geo_cache st))
           (miss_stats geocode (stats st) place)).
Proof.
  unfold request_key, fill_lat_lon, miss_result, miss_stats.
  destruct (pd_notna (Latitude row) && pd_notna (Longitude row)); [done|].
  destruct (Location row) as [| | | | |place|]; try done.
  case_bool_decide; [done|]. intros [= <-] Hc. rewrite Hc.
  exists place. split_and!; [done..|].
  by destruct (geocode _) as [[loc|]|].
Qed.

Lemma miss_stats_counters s place :
  api_queries (miss_stats geocode s place) = S (api_queries s) ∧
  cache_hits (miss_stats geocode s place) = cache_hits s ∧
  rows_total (miss_stats geocode s place) = rows_total s ∧
  rows_with_missing (miss_stats geocode s place) = rows_with_missing s.
Proof. unfold miss_stats. by destruct (geocode _) as [[loc|]|]. Qed.

(** Every call goes one of the three ways. *)
Lemma fill_lat_lon_cases st row : fill_outcome geocode st row (fill st row).
Proof.
  destruct (request_key row) as [key|] eqn:Hk.
  - destruct (geo_cache st !! key) as [cached|] eqn:Hc.
    + rewrite (fill_hit _ _ _ _ Hk Hc). by eapply fill_hits.
    + destruct (fill_miss _ _ _ Hk Hc) as (place & Hp & Hkey & ->).
      by apply fill_misses.
  - rewrite fill_no_request by done. by apply fill_passes.
Qed.

Local Ltac fill_cases st row := fill_cases_by fill_lat_lon_cases st row.

(** The cache only grows: a key that is present keeps its value. *)
Lemma fill_cache_mono st row key v :
  geo_cache st !! key = Some v →
  geo_cache (fill st row).2 !! key = Some v.
Proof.
  intros Hv. fill_cases st row; simpl; [done..|].
  rewrite lookup_insert_ne; [done|]. congruence.
Qed.

(** A call leaves the entries of the other keys alone. *)
Lemma fill_cache_other st row key :
  request_key row ≠ Some key →
  geo_cache (fill st row).2 !! key = geo_cache st !! key.
Proof.
  intros Hne. fill_cases st row; simpl; [done..|].
  rewrite lookup_insert_ne; [done|]. congruence.
Qed.

(** ** [events.apply(fill_lat_lon)], a whole pass *)

Lemma apply_cons st row events :
  apply st (row :: events) =
  ((fill st row).1 :: (apply (fill st row).2 events).1,
   (apply (fill st row).2 events).2).
Proof.
  simpl. destruct (fill st row) as [c st1]; simpl.
  by destruct (apply st1 events).
Qed.

Lemma apply_length st events : length (apply st events).1 = length events.
Proof.
  revert st. induction events as [|row events IH]; intros st; [done|].
  rewrite apply_cons; simpl. by rewrite IH.
Qed.

Lemma requests_for_cons key row events :
  requests_for key (row :: events) =
  ((if bool_decide (request_key row = Some key) then 1 else 0)
   + requests_for key events)%nat.
Proof.
  unfold requests_for. rewrite filter_cons.
  case_decide; case_bool_decide; done.
Qed.

(** Once [key] is cached, every request for it is a hit: it returns the
    cached pair, sends no query, and the entry stays. *)
Lemma apply_cached key v events st :
  geo_cache st !! key = Some v →
  geo_cache (apply st events).2 !! key = Some v ∧
  (∀ i row, events !! i = Some row → request_key row = Some key →
            (apply st events).1 !! i = Some v) ∧
  queries_for geocode key st events = 0%nat ∧
  hits_for geocode key st events = requests_for key events.
Proof.
  revert st. induction events as [|row events IH]; intros st Hv.
  { split_and!; [done| |done..]. intros i row Hi. by destruct i. }
  rewrite apply_cons, requests_for_cons. simpl.
  destruct (IH (fill st row).2) as (IH1 & IH2 & IH3 & IH4).
  { by apply fill_cache_mono. }
  rewrite IH3, IH4. split_and!; [done| | |].
  - intros [|i] r Hi Hr; simpl in *.
    + injection Hi as ->. by rewrite (fill_hit _ _ _ _ Hr Hv).
    + by apply (IH2 i r).
  - case_bool_decide as Hr; [|done].
    rewrite (fill_hit _ _ _ _ Hr Hv). simpl. lia.
  - case_bool_decide as Hr; [|done].
    rewrite (fill_hit _ _ _ _ Hr Hv). simpl. lia.
Qed.

(** While [key] is not cached, the first request for it sends the one
    query and caches what it returns. *)
Lemma apply_uncached key events st :
  geo_cache st !! key = None →
  (∃ v, ∀ i row, events !! i = Some row → request_key row = Some key →
               (apply st events).1 !! i = Some v) ∧
  queries_for geocode key st events
    = (if bool_decide (requests_for key events = 0%nat) then 0 else 1)%nat ∧
  (queries_for geocode key st events + hits_for geocode key st events
    = requests_for key events)%nat.
Proof.
  revert st. induction events as [|row events IH]; intros st Hv.
  { split_and!; [|done..]. exists (PyNone, PyNone). intros i row Hi. by destruct i. }
  rewrite apply_cons, requests_for_cons. simpl.
  destruct (decide (request_key row = Some key)) as [Hr|Hr].
  - rewrite !(bool_decide_eq_true_2 (request_key row = Some key)) by done.
    destruct (fill_miss _ _ _ Hr Hv) as (place & _ & _ & Hfill).
    destruct (miss_stats_counters (stats st) place) as (Hq & Hh & _).
    destruct (apply_cached key (miss_result geocode row place) events
                (fill st row).2) as (_ & A2 & A3 & A4).
    { rewrite Hfill. simpl. apply lookup_insert_eq. }
    rewrite A3, A4. rewrite Hfill in *. simpl in *. rewrite Hq, Hh.
    split_and!.
    + exists (miss_result geocode row place). intros [|i] r Hi Hk; simpl in *.
      * done.
      * by apply (A2 i r).
    + lia.
    + lia.
  - rewrite !(bool_decide_eq_false_2 (request_key row = Some key)) by done.
    destruct (IH (fill st row).2) as ((v & IH1) & IH2 & IH3).
    { by rewrite fill_cache_other. }
    split_and!.
    + exists v. intros [|i] r Hi Hk; simpl in *.
      * congruence.
      * by apply (IH1 i r).
    + rewrite IH2. simpl. done.
    + simpl. done.
Qed.

Lemma request_keys_cons row events :
  request_keys (row :: events) =
  match request_key row with
  | Some key => {[key]} ∪ request_keys events
  | None => request_keys events
  end.
Proof. unfold request_keys. simpl. by destruct (request_key row). Qed.

(** Over a whole pass [api_queries] grows by the number of distinct keys
    requested that were not cached before: one query for each. *)
Lemma api_queries_distinct_keys events st :
  api_queries (stats (apply st events).2) =
  (api_queries (stats st)
   + size (request_keys events ∖ dom (geo_cache st)))%nat.
Proof.
  revert st. induction events as [|row events IH]; intros st.
  { replace (request_keys [] ∖ dom (geo_cache st)) with (∅ : gset string)
      by set_solver.
    rewrite size_empty. simpl. lia. }
  rewrite apply_cons, request_keys_cons. simpl. rewrite IH.
  fill_cases st row; rewrite Hk; simpl.
  - done.
  - apply elem_of_dom_2 in Hc. do 2 f_equal. set_solver.
  - destruct (miss_stats_counters (stats st) place) as (-> & _).
    rewrite dom_insert_L. apply not_elem_of_dom in Hc.
    replace (({[k]} ∪ request_keys events) ∖ dom (geo_cache st))
      with ({[k]} ∪ request_keys events ∖ ({[k]} ∪ dom (geo_cache st))).
    + rewrite (size_union {[k]} (request_keys events ∖ _)) by set_solver.
      rewrite size_singleton. lia.
    + apply set_eq. intros x.
      destruct (decide (x = k)) as [->|]; set_solver.
Qed.

(** C2. In a pass that starts with [key] not cached (a run starts with an
    empty cache), any two resolution requests whose keys equal [key] get the
    same pair of coordinates, [api_queries] grows by exactly one over all
    requests for [key], and every other request for it is a cache hit. *)
Theorem one_query_per_key st events key i j ri rj :
  geo_cache st !! key = None →
  events !! i = Some ri → request_key ri = Some key →
  events !! j = Some rj → request_key rj = Some key →
  is_Some ((apply st events).1 !! i) ∧
  (apply st events).1 !! i = (apply st events).1 !! j ∧
  queries_for geocode key st events = 1%nat ∧
  hits_for geocode key st events = (requests_for key events - 1)%nat.
Proof.
  intros Hst Hi Hki Hj Hkj.
  destruct (apply_uncached key events st Hst) as ((v & Hv) & Hq & Hqh).
  assert (requests_for key events ≠ 0%nat) as Hn.
  { unfold requests_for. intros Hlen. apply length_zero_iff_nil in Hlen.
    assert (ri ∈ filter (λ row, request_key row = Some key) events) as Hin.
    { apply list_elem_of_filter. split; [done|]. by eapply list_elem_of_lookup_2. }
    rewrite Hlen in Hin. by apply not_elem_of_nil in Hin. }
  rewrite bool_decide_eq_false_2 in Hq by done.
  rewrite (Hv i ri Hi Hki), (Hv j rj Hj Hkj).
  split_and!; [by eexists|done|done|lia].
Qed.

(** ** Rows that pass through *)

Lemma fill_keeps_counts st row :
  rows_total (stats (fill st row).2) = rows_total (stats st) ∧
  rows_with_missing (stats (fill st row).2) = rows_with_missing (stats st).
Proof.
  fill_cases st row; simpl; [done..|].
  by destruct (miss_stats_counters (stats st) place) as (_ & _ & -> & ->).
Qed.

Lemma apply_keeps_counts events st :
  rows_total (stats (apply st events).2) = rows_total (stats st) ∧
  rows_with_missing (stats (apply st events).2) = rows_with_missing (stats st).
Proof.
  revert st. induction events as [|row events IH]; intros st; [done|].
  rewrite apply_cons. simpl.
  destruct (IH (fill st row).2) as [-> ->]. apply fill_keeps_counts.
Qed.

(** The result of a call depends on the context through the cache only. *)
Lemma fill_cache_only st1 st2 row :
  geo_cache st1 = geo_cache st2 →
  (fill st1 row).1 = (fill st2 row).1 ∧
  geo_cache (fill st1 row).2 = geo_cache (fill st2 row).2.
Proof.
  intros Heq. destruct (request_key row) as [k|] eqn:Hk.
  - destruct (geo_cache st1 !! k) as [c|] eqn:Hc.
    + rewrite (fill_hit st1 _ _ _ Hk Hc).
      rewrite Heq in Hc. by rewrite (fill_hit st2 _ _ _ Hk Hc).
    + destruct (fill_miss st1 _ _ Hk Hc) as (place & Hp & _ & ->).
      rewrite Heq in Hc.
      destruct (fill_miss st2 _ _ Hk Hc) as (place' & Hp' & _ & ->).
      rewrite Hp in Hp'. injection Hp' as <-. simpl. by rewrite Heq.
  - by rewrite !fill_no_request.
Qed.

Lemma apply_cache_only events st1 st2 :
  geo_cache st1 = geo_cache st2 →
  (apply st1 events).1 = (apply st2 events).1.
Proof.
  revert st1 st2. induction events as [|row events IH]; intros st1 st2 Heq; [done|].
  rewrite !apply_cons. simpl.
  destruct (fill_cache_only st1 st2 row Heq) as [-> Hc].
  by rewrite (IH _ _ Hc).
Qed.

Lemma assign_lookup events cs i row c :
  events !! i = Some row → cs !! i = Some c →
  assign_lat_lon events cs !! i = Some (set_lat_lon row c).
Proof.
  intros Hr Hc. unfold assign_lat_lon.
  rewrite lookup_zip_with, Hr. simpl. by rewrite Hc.
Qed.

Lemma apply_lookup_take events st i row :
  events !! i = Some row →
  (apply st events).1 !! i = Some (fill (apply st (take i events)).2 row).1.
Proof.
  revert st i. induction events as [|r events IH]; intros st i Hi; [done|].
  destruct i as [|i]; simpl in Hi.
  - injection Hi as ->. by rewrite apply_cons.
  - rewrite firstn_cons, !apply_cons. simpl. by apply IH.
Qed.

Lemma request_key_None row :
  missing row = false ∨ usable_location row = false → request_key row = None.
Proof.
  intros [H|H]; [by apply request_key_present|].
  unfold request_key, usable_location in *.
  destruct (pd_notna (Latitude row) && pd_notna (Longitude row)); [done|].
  destruct (Location row); try done.
  case_bool_decide; done.
Qed.

(** C9. A row that has both coordinates, or misses one and has no usable
    place name, comes back from [fill_lat_lon] with its own cells and leaves
    cache and counters alone. The pass writes the result of the call on row
    [i], made in the context the rows before it left, onto row [i]: the table
    keeps its length, the other columns of the row are as before, and a row
    that passes through is the same row. Two passes over the same rows from
    contexts with equal caches return the same coordinates: nothing but the
    cache carries over from row to row. *)
Theorem rows_pass_through_frame :
  (∀ st row, missing row = false ∨ usable_location row = false →
     fill st row = ((Latitude row, Longitude row), st)) ∧
  (∀ st events,
     length (assign_lat_lon events (apply st events).1) = length events) ∧
  (∀ st events i row, events !! i = Some row →
     ∃ row', assign_lat_lon events (apply st events).1 !! i = Some row' ∧
       Sheet row' = Sheet row ∧ Location row' = Location row ∧
       Date row' = Date row ∧ columns row' = columns row ∧
       (Latitude row', Longitude row')
         = (fill (apply st (take i events)).2 row).1 ∧
       (missing row = false ∨ usable_location row = false → row' = row)) ∧
  (∀ st1 st2 row, geo_cache st1 = geo_cache st2 →
     (fill st1 row).1 = (fill st2 row).1 ∧
     geo_cache (fill st1 row).2 = geo_cache (fill st2 row).2) ∧
  (∀ st1 st2 events, geo_cache st1 = geo_cache st2 →
     (apply st1 events).1 = (apply st2 events).1).
Proof.
  split_and!.
  - intros st row H. by apply fill_no_request, request_key_None.
  - intros st events. unfold assign_lat_lon.
    rewrite length_zip_with, apply_length. lia.
  - intros st events i row Hi.
    pose proof (apply_lookup_take events st i row Hi) as Hc.
    exists (set_lat_lon row (fill (apply st (take i events)).2 row).1).
    split_and!; try done.
    + by apply assign_lookup.
    + simpl. by destruct (fill _ row).1.
    + intros H. rewrite fill_no_request by by apply request_key_None.
      apply set_lat_lon_same.
  - apply fill_cache_only.
  - intros st1 st2 events. apply apply_cache_only.
Qed.

(** ** [main]: the statistics *)

Lemma count_missing_cons row events :
  count_missing (row :: events) =
  ((if missing row then 1 else 0) + count_missing events)%nat.
Proof.
  unfold count_missing. rewrite filter_cons.
  case_decide as H; destruct (missing row); done.
Qed.

Lemma count_missing_le_length events :
  (count_missing events ≤ length events)%nat.
Proof. apply length_filter. Qed.

(** Only rows that missed a coordinate before the pass can miss one after. *)
Lemma count_missing_pass events st :
  (count_missing (assign_lat_lon events (apply st events).1)
   ≤ count_missing events)%nat.
Proof.
  revert st. induction events as [|row events IH]; intros st; [done|].
  rewrite apply_cons. unfold assign_lat_lon in *. simpl.
  rewrite !count_missing_cons. specialize (IH (fill st row).2).
  destruct (missing row) eqn:Hm.
  - destruct (missing (set_lat_lon row _)); lia.
  - pose proof (fill_no_request st row (request_key_present _ Hm)) as Hf.
    rewrite Hf in *. simpl in *. rewrite set_lat_lon_same, Hm. lia.
Qed.

Variable float_of_str : string → option float.

Lemma normalize_row_returns row :
  ∃ lat lon, normalize_row float_of_str row = Ret (set_lat_lon row (lat, lon)).
Proof.
  unfold normalize_row.
  destruct (clean_number_returns float_of_str (Latitude row)) as [a ->].
  destruct (clean_number_returns float_of_str (Longitude row)) as [b ->].
  simpl. by eexists _, _.
Qed.

Lemma normalize_returns events :
  ∃ events', normalize float_of_str events = Ret events' ∧
             length events' = length events.
Proof.
  induction events as [|row events (events' & IH & Hlen)]; [by exists []|].
  destruct (normalize_row_returns row) as (lat & lon & Hrow).
  exists (set_lat_lon row (lat, lon) :: events'). simpl.
  rewrite Hrow, IH. simpl. by rewrite Hlen.
Qed.

(** [main] once the two coordinate columns are normalised. *)
Lemma main_normalized events events' :
  normalize float_of_str events = Ret events' →
  main geocode float_of_str events =
  Ret (let n_missing := count_missing events' in
       let st := Ctx ∅ {| rows_total := length events';
                          rows_with_missing := n_missing;
                          cache_hits := 0; api_queries := 0;
                          locations_geocoded := 0;
                          locations_unresolved := 0 |} in
       if (0 <? n_missing)%nat then
         let events'' := assign_lat_lon events' (apply st events').1 in
         {| written := events''; final_stats := stats (apply st events').2;
            missing_after := count_missing events'' |}
       else
         {| written := events'; final_stats := stats st; missing_after := 0 |}).
Proof.
  intros Hn. unfold main. rewrite Hn. simpl.
  destruct (0 <? count_missing events')%nat; [|done].
  by destruct (apply _ events').
Qed.

(** C5. [main] returns on every table, and its three final numbers are in
    order: the rows still missing a coordinate after the pass are at most the
    rows missing one before it, which are at most all rows. [rows_total] is
    the number of rows read, [rows_with_missing] counts the normalised rows
    that miss a coordinate, [missing_after] the written rows that do. *)
Theorem missing_after_le_missing_le_total events :
  ∃ out events',
    main geocode float_of_str events = Ret out ∧
    normalize float_of_str events = Ret events' ∧
    (missing_after out ≤ rows_with_missing (final_stats out))%nat ∧
    (rows_with_missing (final_stats out) ≤ rows_total (final_stats out))%nat ∧
    rows_total (final_stats out) = length events ∧
    rows_with_missing (final_stats out) = count_missing events' ∧
    missing_after out = count_missing (written out).
Proof.
  destruct (normalize_returns events) as (events' & Hn & Hlen).
  eexists _, events'. split; [by apply main_normalized|]. split; [done|].
  simpl. destruct (0 <? count_missing events')%nat eqn:Hpos; simpl.
  - match goal with |- context [apply ?st events'] =>
      destruct (apply_keeps_counts events' st) as [-> ->];
      pose proof (count_missing_pass events' st) end.
    simpl. pose proof (count_missing_le_length events').
    split_and!; [done|done|lia|done|done].
  - apply Nat.ltb_ge in Hpos.
    pose proof (count_missing_le_length events').
    split_and!; lia.
Qed.

(** ** Unresolved lookups *)

(** A lookup of the row's own that finds nothing (no match, a provider
    error, retries exhausted) returns the row's cells as they are, raises
    nothing and is counted once in [locations_unresolved]. *)
Lemma fill_unresolved_miss st row key place :
  request_key row = Some key →
  geo_cache st !! key = None →
  Location row = PyStr place →
  (∀ loc, geocode (place +:+ COUNTRY_SUFFIX) ≠ Ret (Some loc)) →
  (fill st row).1 = (Latitude row, Longitude row) ∧
  locations_unresolved (stats (fill st row).2)
    = S (locations_unresolved (stats st)) ∧
  geo_cache (fill st row).2 !! key = Some (Latitude row, Longitude row).
Proof.
  intros Hk Hc Hp Hgeo.
  destruct (fill_miss _ _ _ Hk Hc) as (place' & Hp' & _ & ->).
  rewrite Hp in Hp'. injection Hp' as <-.
  unfold miss_result, miss_stats. simpl.
  destruct (geocode _) as [[loc|]|] eqn:Hg; simpl.
  - by destruct (Hgeo loc).
  - by rewrite lookup_insert_eq.
  - by rewrite lookup_insert_eq.
Qed.

(** ** Coordinates as pairs *)

Section Paired.
Hypothesis geocode_numbers : ∀ query loc,
  geocode query = Ret (Some loc) →
  is_nan (latitude loc) = false ∧ is_nan (longitude loc) = false.

Lemma miss_result_paired row place :
  paired (Latitude row, Longitude row) = true →
  paired (miss_result geocode row place) = true.
Proof.
  intros Hrow. unfold miss_result.
  destruct (geocode _) as [[loc|]|] eqn:Hg; try done.
  destruct (geocode_numbers _ _ Hg) as [Hlat Hlon].
  unfold paired. simpl. by rewrite Hlat, Hlon.
Qed.

Lemma fill_paired st row :
  (∀ k v, geo_cache st !! k = Some v → paired v = true) →
  paired (Latitude row, Longitude row) = true →
  paired (fill st row).1 = true ∧
  (∀ k v, geo_cache (fill st row).2 !! k = Some v → paired v = true).
Proof.
  intros Hcache Hrow. fill_cases st row; simpl.
  - done.
  - eauto.
  - split; [by apply miss_result_paired|].
    intros k' v. rewrite lookup_insert. case_decide.
    + intros [= <-]. by apply miss_result_paired.
    + apply Hcache.
Qed.

Lemma apply_paired events st :
  (∀ k v, geo_cache st !! k = Some v → paired v = true) →
  Forall (λ row, paired (Latitude row, Longitude row) = true) events →
  Forall (λ row, paired (Latitude row, Longitude row) = true)
         (assign_lat_lon events (apply st events).1).
Proof.
  revert st. induction events as [|row events IH]; intros st Hcache Hrows.
  { constructor. }
  apply Forall_cons in Hrows as [Hrow Hrows].
  destruct (fill_paired st row Hcache Hrow) as [Hc Hcache'].
  rewrite apply_cons. unfold assign_lat_lon in *. simpl.
  constructor; [|by apply IH].
  simpl. by destruct (fill st row).1.
Qed.

(** C4, as the code has it. With a provider that answers with numbers: a
    lookup that finds the place writes both coordinates, a table in which
    no normalised row has exactly one coordinate is written with no such
    row, and a row without a usable place name keeps the cells it has, one
    or two. *)
Theorem paired_rows_stay_paired :
  (∀ st row, usable_location row = false →
     fill st row = ((Latitude row, Longitude row), st)) ∧
  (∀ st row key place loc,
     request_key row = Some key → geo_cache st !! key = None →
     Location row = PyStr place →
     geocode (place +:+ COUNTRY_SUFFIX) = Ret (Some loc) →
     (fill st row).1 = (PyFloat (latitude loc), PyFloat (longitude loc)) ∧
     missing (set_lat_lon row (fill st row).1) = false) ∧
  (∀ events events' out,
     normalize float_of_str events = Ret events' →
     Forall (λ row, paired (Latitude row, Longitude row) = true) events' →
     main geocode float_of_str events = Ret out →
     Forall (λ row, paired (Latitude row, Longitude row) = true) (written out)).
Proof.
  split_and!.
  - intros st row Hrow. apply fill_no_request, request_key_None. by right.
  - intros st row key place loc Hk Hc Hp Hg.
    destruct (fill_miss _ _ _ Hk Hc) as (place' & Hp' & _ & ->).
    rewrite Hp in Hp'. injection Hp' as <-.
    unfold miss_result. simpl. rewrite Hg. split; [done|].
    destruct (geocode_numbers _ _ Hg) as [Hlat Hlon].
    unfold missing. simpl. by rewrite Hlat, Hlon.
  - intros events events' out Hn Hrows Hmain.
    rewrite (main_normalized _ _ Hn) in Hmain. injection Hmain as <-.
    simpl. destruct (0 <? count_missing events')%nat; simpl; [|done].
    apply apply_paired; [|done]. intros k v. simpl. by rewrite lookup_empty.
Qed.
End Paired.

End FillFacts.

(** ** The properties on the sample tables *)

Import Samples.

(** Three requests for Kiruna, written three ways: one query, two hits, the
    same coordinates. *)
Lemma one_query_per_key_witness :
  (apply_fill_lat_lon provider ctx0 kiruna_rows).1 !! 0%nat
    = (apply_fill_lat_lon provider ctx0 kiruna_rows).1 !! 3%nat ∧
  queries_for provider "kiruna" ctx0 kiruna_rows = 1%nat ∧
  hits_for provider "kiruna" ctx0 kiruna_rows = 2%nat.
Proof.
  destruct (one_query_per_key provider ctx0 kiruna_rows "kiruna" 0 3
              (sheet_row "snow" (PyStr "Kiruna") PyNone PyNone)
              (sheet_row "rain" (PyStr "KIRUNA") PyNone PyNone))
    as (_ & Hsame & Hq & Hh); try reflexivity.
  split_and!; [exact Hsame|exact Hq|exact Hh].
Defined.

(** A row with one coordinate and no place name comes back as it is, and
    the second Kiruna row is written with the coordinates its own call
    returned, in the context the first row left. *)
Lemma rows_pass_through_frame_witness :
  fill_lat_lon provider ctx0 lonely = ((PyFloat f59, PyNone), ctx0) ∧
  ∃ row', assign_lat_lon kiruna_rows
            (apply_fill_lat_lon provider ctx0 kiruna_rows).1 !! 1%nat
          = Some row' ∧
          Location row' = PyStr " kiruna " ∧
          (Latitude row', Longitude row') = (PyFloat f67, PyFloat f20).
Proof.
  destruct (rows_pass_through_frame provider) as (Hpass & _ & Hrow & _).
  split.
  - apply (Hpass ctx0 lonely). right. reflexivity.
  - destruct (Hrow ctx0 kiruna_rows 1%nat
                (sheet_row "wind" (PyStr " kiruna ") PyNone PyNone) eq_refl)
      as (row' & Hat & _ & Hloc & _ & _ & Hcoords & _).
    exists row'. split_and!; [exact Hat|exact Hloc|].
    rewrite Hcoords. reflexivity.
Defined.

(** C3, where the code departs from it. Two rows name the same unknown
    place; the first has only a latitude, the second only a longitude. The
    first lookup finds nothing and keeps the first row's cells, but stores
    them under the place's key; the second row's request ends unresolved
    through the cache and comes back with the first row's cells: its
    longitude is gone and it carries a latitude that was never its own. *)
Lemma unresolved_hit_takes_cached_cells :
  request_key half_a = Some "atlantis" ∧
  request_key half_b = Some "atlantis" ∧
  (Latitude half_b, Longitude half_b) = (PyNone, PyFloat f18) ∧
  (apply_fill_lat_lon no_match ctx0 [half_a; half_b]).1
    = [(PyFloat f59, PyNone); (PyFloat f59, PyNone)] ∧
  assign_lat_lon [half_a; half_b]
      (apply_fill_lat_lon no_match ctx0 [half_a; half_b]).1
    = [half_a; sheet_row "snow" (PyStr "atlantis") (PyFloat f59) PyNone] ∧
  locations_unresolved
      (stats (apply_fill_lat_lon no_match ctx0 [half_a; half_b]).2) = 1%nat ∧
  cache_hits
      (stats (apply_fill_lat_lon no_match ctx0 [half_a; half_b]).2) = 1%nat.
Proof. split_and!; reflexivity. Qed.

(** C4 as stated fails: a row with a latitude, no longitude and no place
    name is written as it came. *)
Lemma lonely_row_written_unpaired :
  ∃ out, main no_match decimal_of_str [lonely] = Ret out ∧
         written out = [lonely] ∧
         pd_isna (Latitude lonely) = false ∧
         pd_isna (Longitude lonely) = true.
Proof. eexists. split_and!; reflexivity. Qed.

(** The sample table has no row with exactly one coordinate once it is
    normalised, and none when it is written. *)
Lemma paired_rows_stay_paired_witness :
  ∃ out, main provider decimal_of_str raw_rows = Ret out ∧
         Forall (λ row, paired (Latitude row, Longitude row) = true)
                (written out).
Proof.
  assert (∀ query loc, provider query = Ret (Some loc) →
            is_nan (latitude loc) = false ∧ is_nan (longitude loc) = false)
    as Hnum.
  { intros query loc. unfold provider.
    repeat case_bool_decide; intros [= <-]; split; reflexivity. }
  destruct (paired_rows_stay_paired provider decimal_of_str Hnum)
    as (_ & _ & Hmain).
  eexists. split; [reflexivity|].
  eapply (Hmain raw_rows); [reflexivity| |reflexivity].
  repeat constructor.
Defined.

End GeocodeProofs.

(* ===================================================================== *)
(** * Further properties of geocode_events.py                             *)
(* ===================================================================== *)

Module GeocodeMore.
Import Py Geocode GeocodeProofs.

(** ** Normal forms of [strip] and [lower] *)

Lemma lstrip_head s :
  lstrip s = "" ∨ ∃ c t, lstrip s = String c t ∧ isspace c = false.
Proof.
  induction s as [|c s IH]; simpl; [by left|].
  destruct (isspace c) eqn:Hc; [done|]. right. by exists c, s.
Qed.

Lemma rstrip_cons c s :
  isspace c = false → rstrip (String c s) = String c (rstrip s).
Proof. intros Hc. simpl. rewrite Hc. by destruct (rstrip s). Qed.

Lemma rstrip_rstrip s : rstrip (rstrip s) = rstrip s.
Proof.
  induction s as [|c s IH]; simpl; [done|].
  destruct (rstrip s) as [|d r] eqn:Hr.
  - destruct (isspace c) eqn:Hc; simpl; [done|]. by rewrite Hc.
  - simpl in *. by rewrite IH.
Qed.

Lemma lstrip_rstrip_lstrip s : lstrip (rstrip (lstrip s)) = rstrip (lstrip s).
Proof.
  destruct (lstrip_head s) as [->|(c & t & -> & Hc)]; [done|].
  rewrite rstrip_cons by done. simpl. by rewrite Hc.
Qed.

Lemma strip_strip s : strip (strip s) = strip s.
Proof. unfold strip. by rewrite lstrip_rstrip_lstrip, rstrip_rstrip. Qed.

Lemma lower_char_space c : isspace (lower_char c) = isspace c.
Proof. by destruct c as [[] [] [] [] [] [] [] []]. Qed.

Lemma lower_char_twice c : lower_char (lower_char c) = lower_char c.
Proof. by destruct c as [[] [] [] [] [] [] [] []]. Qed.

Lemma strip_lower s : strip (lower s) = lower (strip s).
Proof. apply strip_str_map, lower_char_space. Qed.

Lemma lower_lower s : lower (lower s) = lower s.
Proof. apply str_map_twice, lower_char_twice. Qed.

(** The key of a request is a normal form: not empty, with no blank at
    either end and no capital letter. *)
Lemma request_key_normal row key :
  request_key row = Some key →
  key ≠ "" ∧ strip key = key ∧ lower key = key.
Proof.
  unfold request_key.
  destruct (pd_notna (Latitude row) && pd_notna (Longitude row)); [done|].
  destruct (Location row) as [| | | | |place|]; try done.
  case_bool_decide as Hblank; [done|]. intros [= <-]. split_and!.
  - unfold lower. by rewrite str_map_nil_iff.
  - by rewrite strip_lower, strip_strip.
  - apply lower_lower.
Qed.

(** ** Counters and cache after a pass *)

Lemma request_key_Some_iff row :
  is_Some (request_key row) ↔ missing row = true ∧ usable_location row = true.
Proof.
  unfold request_key, missing, usable_location, pd_notna.
  destruct (pd_isna (Latitude row)), (pd_isna (Longitude row));
    destruct (Location row); simpl; try case_bool_decide; simpl;
    split; try (intros [? ?]; done); try (intros [? ?]; discriminate);
    try done; by eexists.
Qed.

(** The rows of a table that [fill_lat_lon] sends to the resolver. *)
Lemma length_requests events :
  length (omap request_key events) =
  length (filter (λ row, missing row = true ∧ usable_location row = true)
                 events).
Proof.
  induction events as [|row events IH]; [done|].
  rewrite filter_cons. simpl.
  destruct (request_key row) as [key|] eqn:Hk.
  - rewrite decide_True; [simpl; f_equal; exact IH|].
    apply request_key_Some_iff. by eexists.
  - rewrite decide_False; [exact IH|].
    intros H%request_key_Some_iff. rewrite Hk in H. by destruct H.
Qed.

Section Accounting.
Variable geocode : string → res (option location).

Local Abbreviation fill := (fill_lat_lon geocode).
Local Abbreviation apply := (apply_fill_lat_lon geocode).
Local Ltac fill_cases st row :=
  fill_cases_by (fill_lat_lon_cases geocode) st row.

Lemma miss_stats_outcomes s place :
  (locations_geocoded (miss_stats geocode s place)
   + locations_unresolved (miss_stats geocode s place))%nat
  = S (locations_geocoded s + locations_unresolved s).
Proof.
  unfold miss_stats. destruct (geocode _) as [[loc|]|]; simpl; lia.
Qed.

Lemma request_keys_nil : request_keys [] = ∅.
Proof. done. Qed.

(** One call: a request is counted once, as a hit or as a query; a query is
    counted once more, as geocoded or as unresolved; the cache gains the
    key of the request if it was new, and nothing else. *)
Lemma fill_accounting st row :
  (cache_hits (stats (fill st row).2) + api_queries (stats (fill st row).2)
   = cache_hits (stats st) + api_queries (stats st)
     + length (omap request_key [row]))%nat ∧
  (locations_geocoded (stats (fill st row).2)
   + locations_unresolved (stats (fill st row).2) + api_queries (stats st)
   = locations_geocoded (stats st) + locations_unresolved (stats st)
     + api_queries (stats (fill st row).2))%nat ∧
  dom (geo_cache (fill st row).2) = dom (geo_cache st) ∪ request_keys [row].
Proof.
  rewrite request_keys_cons, request_keys_nil. cbn [omap list_omap].
  fill_cases st row; rewrite Hk; cbn [fst snd geo_cache stats length].
  - split_and!; try (simpl; lia). by rewrite (right_id_L ∅ (∪)).
  - split_and!; try (simpl; lia). apply elem_of_dom_2 in Hc.
    rewrite (right_id_L ∅ (∪)). apply set_eq. intros x.
    rewrite elem_of_union, elem_of_singleton. naive_solver.
  - destruct (miss_stats_counters geocode (stats st) place) as (-> & -> & _).
    pose proof (miss_stats_outcomes (stats st) place).
    split_and!; try (simpl; lia).
    rewrite dom_insert_L, (right_id_L ∅ (∪)). by rewrite (comm_L (∪)).
Qed.

Lemma apply_accounting events st :
  (cache_hits (stats (apply st events).2) + api_queries (stats (apply st events).2)
   = cache_hits (stats st) + api_queries (stats st)
     + length (omap request_key events))%nat ∧
  (locations_geocoded (stats (apply st events).2)
   + locations_unresolved (stats (apply st events).2) + api_queries (stats st)
   = locations_geocoded (stats st) + locations_unresolved (stats st)
     + api_queries (stats (apply st events).2))%nat ∧
  dom (geo_cache (apply st events).2) = dom (geo_cache st) ∪ request_keys events.
Proof.
  revert st. induction events as [|row events IH]; intros st.
  { rewrite request_keys_nil, (right_id_L ∅ (∪)). simpl.
    split_and!; first [lia|done]. }
  rewrite apply_cons. cbn [fst snd].
  destruct (IH (fill st row).2) as (IH1 & IH2 & IH3).
  destruct (fill_accounting st row) as (H1 & H2 & H3).
  rewrite IH3, H3.
  assert (length (omap request_key (row :: events))
          = (length (omap request_key [row])
             + length (omap request_key events))%nat) as ->.
  { cbn [omap list_omap]. by destruct (request_key row). }
  split_and!; try lia.
  rewrite (request_keys_cons row events), (request_keys_cons row []),
    request_keys_nil.
  destruct (request_key row); rewrite ?(right_id_L ∅ (∪));
    [by rewrite (assoc_L (∪))|done].
Qed.
End Accounting.

Section MainCounters.
Variable geocode : string → res (option location).
Variable float_of_str : string → option float.

Lemma elem_of_request_keys events key :
  key ∈ request_keys events ↔ ∃ row, row ∈ events ∧ request_key row = Some key.
Proof. unfold request_keys. by rewrite elem_of_list_to_set, list_elem_of_omap. Qed.

(** X1. After a pass that starts with an empty cache, the cache holds one
    entry for each key requested and no other, as many entries as queries
    were sent, and every key is in normal form: not empty, without blanks at
    its ends and without capital letters. *)
Theorem cache_after_pass s events :
  dom (geo_cache (apply_fill_lat_lon geocode (Ctx ∅ s) events).2)
    = request_keys events ∧
  api_queries (stats (apply_fill_lat_lon geocode (Ctx ∅ s) events).2)
    = (api_queries s
       + size (geo_cache (apply_fill_lat_lon geocode (Ctx ∅ s) events).2))%nat ∧
  (∀ key, key ∈ dom (geo_cache (apply_fill_lat_lon geocode (Ctx ∅ s) events).2) →
     key ≠ "" ∧ strip key = key ∧ lower key = key ∧
     ∃ row, row ∈ events ∧ request_key row = Some key).
Proof.
  destruct (apply_accounting geocode events (Ctx ∅ s)) as (_ & _ & Hdom).
  cbn [geo_cache] in Hdom. rewrite dom_empty_L, (left_id_L ∅ (∪)) in Hdom.
  split_and!.
  - done.
  - rewrite api_queries_distinct_keys. cbn [geo_cache stats].
    rewrite dom_empty_L, difference_empty_L, <- Hdom. by rewrite size_dom.
  - intros key. rewrite Hdom, elem_of_request_keys. intros (row & Hrow & Hk).
    destruct (request_key_normal row key Hk) as (? & ? & ?).
    split_and!; [done..|]. by exists row.
Qed.

Lemma length_filter_and {A} (P Q : A → Prop) `{∀ x, Decision (P x)}
    `{∀ x, Decision (Q x)} (l : list A) :
  (length (filter (λ x, P x ∧ Q x) l) ≤ length (filter P l))%nat.
Proof.
  induction l as [|x l IH]; [done|]. rewrite !filter_cons.
  destruct (decide (P x ∧ Q x)) as [[HP HQ]|Hn], (decide (P x)) as [HP'|HP'];
    simpl; try lia. done.
Qed.

(** X2. The counters [main] reports add up: every query is counted once
    more as geocoded or as unresolved, and hits and queries together are the
    rows that missed a coordinate and had a usable place name, so never more
    than the rows that missed a coordinate. *)
Theorem main_counters_add_up events :
  ∃ out events',
    main geocode float_of_str events = Ret out ∧
    normalize float_of_str events = Ret events' ∧
    api_queries (final_stats out)
      = (locations_geocoded (final_stats out)
         + locations_unresolved (final_stats out))%nat ∧
    (cache_hits (final_stats out) + api_queries (final_stats out))%nat
      = length (filter (λ row, missing row = true ∧ usable_location row = true)
                       events') ∧
    (cache_hits (final_stats out) + api_queries (final_stats out)
     ≤ rows_with_missing (final_stats out))%nat.
Proof.
  destruct (normalize_returns float_of_str events) as (events' & Hn & Hlen).
  eexists _, events'. split; [by apply main_normalized|]. split; [done|].
  pose proof (length_filter_and (λ row, missing row = true)
                (λ row, usable_location row = true) events') as Hle.
  cbn beta in Hle. fold (count_missing events') in Hle.
  cbn zeta. destruct (0 <? count_missing events')%nat eqn:Hpos; cbn [final_stats].
  - match goal with |- context [apply_fill_lat_lon geocode ?st events'] =>
      destruct (apply_accounting geocode events' st) as (H1 & H2 & _);
      destruct (apply_keeps_counts geocode events' st) as [_ Hm] end.
    rewrite length_requests in H1. cbn [stats cache_hits api_queries
      locations_geocoded locations_unresolved rows_with_missing] in *.
    rewrite Hm. split_and!; lia.
  - apply Nat.ltb_ge in Hpos. simpl. split_and!; lia.
Qed.
End MainCounters.

(** ** Which spelling is looked up *)

Section FirstRequest.
Variable geocode : string → res (option location).

Local Abbreviation fill := (fill_lat_lon geocode).
Local Abbreviation apply := (apply_fill_lat_lon geocode).

Lemma apply_app st l1 l2 :
  apply st (l1 ++ l2)%list =
  (((apply st l1).1 ++ (apply (apply st l1).2 l2).1)%list,
   (apply (apply st l1).2 l2).2).
Proof.
  revert st. induction l1 as [|row l1 IH]; intros st.
  { simpl. by destruct (apply st l2). }
  rewrite <- app_comm_cons, !apply_cons, IH. done.
Qed.

(** Rows that do not request [key] leave it uncached. *)
Lemma apply_uncached_others key events st :
  geo_cache st !! key = None →
  Forall (λ row, request_key row ≠ Some key) events →
  geo_cache (apply st events).2 !! key = None.
Proof.
  revert st. induction events as [|row events IH]; intros st Hc Hrows; [done|].
  apply Forall_cons in Hrows as [Hrow Hrows].
  rewrite apply_cons. simpl. apply IH; [|done].
  by rewrite fill_cache_other.
Qed.

(** X3. The first row that requests a key decides for all of them: its
    place text, as it is written in that row and followed by the country
    suffix, is the one query, and every row with the same key is given what
    that query returned, so the provider's coordinates when it found the
    place, however those other rows spell it. *)
Theorem first_request_decides st pre first post key place j row :
  geo_cache st !! key = None →
  Forall (λ row, request_key row ≠ Some key) pre →
  request_key first = Some key →
  Location first = PyStr place →
  (pre ++ first :: post)%list !! j = Some row →
  request_key row = Some key →
  (apply st (pre ++ first :: post)%list).1 !! j
    = Some (miss_result geocode first place) ∧
  (∀ loc, geocode (place +:+ COUNTRY_SUFFIX) = Ret (Some loc) →
     (apply st (pre ++ first :: post)%list).1 !! j
       = Some (PyFloat (latitude loc), PyFloat (longitude loc))).
Proof.
  intros Hc Hpre Hfirst Hplace Hj Hrow.
  assert ((apply st (pre ++ first :: post)%list).1 !! j
          = Some (miss_result geocode first place)) as Hres.
  { pose proof (apply_uncached_others key pre st Hc Hpre) as Hc'.
    rewrite apply_app. cbn [fst].
    destruct (decide (j < length pre)%nat) as [Hlt|Hge].
    - rewrite lookup_app_l in Hj by done.
      apply list_elem_of_lookup_2 in Hj.
      by eapply Forall_forall in Hpre.
    - rewrite lookup_app_r in Hj by lia.
      rewrite lookup_app_r by (rewrite apply_length; lia).
      rewrite apply_length. rewrite apply_cons. cbn [fst].
      destruct (fill_miss geocode _ _ _ Hfirst Hc')
        as (place' & Hp' & _ & Hfill).
      rewrite Hplace in Hp'. injection Hp' as <-.
      destruct (j - length pre)%nat as [|k] eqn:Hk; simpl in *.
      + by rewrite Hfill.
      + destruct (apply_cached geocode key (miss_result geocode first place)
                    post (fill (apply st pre).2 first).2) as (_ & Hall & _).
        { rewrite Hfill. simpl. apply lookup_insert_eq. }
        by apply (Hall k row). }
  split; [done|]. intros loc Hloc. rewrite Hres.
  unfold miss_result. by rewrite Hloc.
Qed.
End FirstRequest.

(** ** What [main] writes *)

Section MainRows.
Variable geocode : string → res (option location).
Variable float_of_str : string → option float.



End MainRows.

(** ** The locations announced and the queries sent *)

Lemma elem_of_unique_from seen l x :
  x ∈ unique_from seen l ↔ x ∈ l ∧ x ∉ seen.
Proof.
  revert seen. induction l as [|y l IH]; intros seen; simpl.
  { split; [by intros ?%not_elem_of_nil|by intros [?%not_elem_of_nil _]]. }
  case_bool_decide as Hy.
  - rewrite IH, elem_of_cons. split; [tauto|].
    intros [[->|?] ?]; [done|tauto].
  - rewrite !elem_of_cons, IH, elem_of_cons.
    destruct (decide (x = y)) as [->|]; [tauto|]. tauto.
Qed.

Lemma elem_of_unique l x : x ∈ unique l ↔ x ∈ l.
Proof.
  unfold unique. rewrite elem_of_unique_from.
  split; [tauto|]. intros ?. split; [done|apply not_elem_of_nil].
Qed.

Lemma NoDup_unique_from seen l : NoDup (unique_from seen l).
Proof.
  revert seen. induction l as [|y l IH]; intros seen; simpl; [constructor|].
  case_bool_decide; [done|]. constructor; [|done].
  rewrite elem_of_unique_from, elem_of_cons. tauto.
Qed.

Lemma size_list_to_set_le (l : list string) :
  (size (list_to_set l : gset string) ≤ length l)%nat.
Proof.
  induction l as [|x l IH].
  { change (size (∅ : gset string) ≤ 0)%nat. by rewrite size_empty. }
  change (size ({[x]} ∪ list_to_set l : gset string) ≤ S (length l))%nat.
  rewrite size_union_alt, size_singleton.
  assert (list_to_set l ∖ {[x]} ⊆ (list_to_set l : gset string)) as Hsub
    by set_solver.
  apply subseteq_size in Hsub. lia.
Qed.

Section Locations.
Variable geocode : string → res (option location).
Variable float_of_str : string → option float.
Variable str_of : pyval → string.

(** The key of every request is the lower-case form of an announced
    location. *)
Lemma request_key_announced events row key :
  row ∈ events → request_key row = Some key →
  ∃ place, place ∈ locations_to_geocode str_of events ∧ key = lower place.
Proof.
  intros Hrow Hk.
  assert (missing row = true) as Hm.
  { destruct (request_key_Some_iff row) as [H _]. by destruct H as [? _]; [eexists|]. }
  unfold request_key in Hk.
  destruct (pd_notna (Latitude row) && pd_notna (Longitude row)); [done|].
  destruct (Location row) as [| | | | |place|] eqn:Hp; try done.
  case_bool_decide; [done|]. injection Hk as <-.
  exists (strip place). split; [|done].
  unfold locations_to_geocode. rewrite elem_of_unique.
  apply list_elem_of_fmap. exists place. split; [done|].
  apply list_elem_of_fmap. exists (PyStr place). split; [done|].
  apply list_elem_of_filter. split; [done|].
  apply list_elem_of_fmap. exists row. split; [done|].
  by apply list_elem_of_filter.
Qed.

(** X5. [main] never sends more queries than the number of unique locations
    it announces before the pass. *)
Theorem queries_at_most_locations events :
  ∃ out events',
    main geocode float_of_str events = Ret out ∧
    normalize float_of_str events = Ret events' ∧
    (api_queries (final_stats out)
     ≤ length (locations_to_geocode str_of events'))%nat.
Proof.
  destruct (normalize_returns float_of_str events) as (events' & Hn & Hlen).
  eexists _, events'. split; [by apply main_normalized|]. split; [done|].
  cbn zeta. destruct (0 <? count_missing events')%nat; cbn [final_stats];
    [|simpl; lia].
  rewrite api_queries_distinct_keys. cbn [geo_cache stats api_queries].
  rewrite dom_empty_L, difference_empty_L.
  pose proof (size_list_to_set_le
                (lower <$> locations_to_geocode str_of events')) as Hle.
  rewrite length_fmap in Hle.
  etransitivity; [|exact Hle].
  apply subseteq_size. intros key.
  rewrite elem_of_request_keys, elem_of_list_to_set.
  intros (row & Hrow & Hk).
  destruct (request_key_announced events' row key Hrow Hk) as (place & ? & ->).
  apply list_elem_of_fmap. by exists place.
Qed.
End Locations.

(** ** Reading the sheets *)

Lemma filter_tag_sheet_same sheet rows :
  filter (λ row, Sheet row = sheet) (tag_sheet sheet rows) = tag_sheet sheet rows.
Proof.
  unfold tag_sheet. induction rows as [|r rows IH]; [done|].
  rewrite fmap_cons, filter_cons, decide_True by done. by rewrite IH.
Qed.

Lemma filter_tag_sheet_other sheet sheet' rows :
  sheet' ≠ sheet →
  filter (λ row, Sheet row = sheet) (tag_sheet sheet' rows) = [].
Proof.
  intros Hne. unfold tag_sheet. induction rows as [|r rows IH]; [done|].
  by rewrite fmap_cons, filter_cons, decide_False.
Qed.

Lemma filter_concat_absent sheet sheets :
  sheet ∉ sheets.*1 →
  filter (λ row, Sheet row = sheet) (concat (read_frames sheets)) = [].
Proof.
  induction sheets as [|[name rows] sheets IH]; [done|].
  rewrite fmap_cons, not_elem_of_cons. intros [Hne Hnin].
  simpl. rewrite filter_app, filter_tag_sheet_other by done. by apply IH.
Qed.

Lemma length_tag_sheet sheet rows : length (tag_sheet sheet rows) = length rows.
Proof. apply length_fmap. Qed.

(** X6. With no sheet [pd.concat] raises [ValueError]. Otherwise [events]
    has the rows of all sheets, and when the sheet names are distinct the
    rows tagged with a sheet's name are that sheet's rows, in their order:
    tagging and concatenating loses nothing and mixes nothing. *)
Theorem read_events_by_sheet :
  read_events [] = Raise ValueError ∧
  (∀ sheet sheets, ∃ events,
     read_events (sheet :: sheets) = Ret events ∧
     length events = sum_list (length <$> (sheet :: sheets).*2) ∧
     (NoDup (sheet :: sheets).*1 →
      ∀ name rows, (name, rows) ∈ sheet :: sheets →
        filter (λ row, Sheet row = name) events = tag_sheet name rows)).
Proof.
  split; [done|]. intros sheet sheets.
  exists (concat (read_frames (sheet :: sheets))). split; [by destruct sheet|].
  generalize (sheet :: sheets). clear sheet sheets. intros sheets. split.
  - induction sheets as [|[name rows] sheets IH]; [done|].
    simpl. by rewrite length_app, length_tag_sheet, IH.
  - induction sheets as [|[name' rows'] sheets IH]; intros Hnd name rows Hin.
    { by apply not_elem_of_nil in Hin. }
    rewrite fmap_cons in Hnd. apply NoDup_cons in Hnd as [Hnin Hnd].
    simpl. rewrite filter_app.
    apply elem_of_cons in Hin as [[= -> ->]|Hin].
    + rewrite filter_tag_sheet_same, filter_concat_absent by done.
      apply app_nil_r.
    + assert (name' ≠ name) as Hne.
      { intros ->. apply Hnin. apply list_elem_of_fmap. by exists (name, rows). }
      rewrite filter_tag_sheet_other by done. by apply IH.
Qed.

(** ** Blanks around a number *)

(** X7. Blanks around the text of a number never change what
    [clean_number] makes of it, and a text of blanks alone is [None] (the
    parser, like the interpreter's, rejects the empty string). *)
Theorem clean_number_ignores_blank_ends float_of_str s :
  float_of_str "" = None →
  clean_number float_of_str (PyStr s)
    = clean_number float_of_str (PyStr (strip s)) ∧
  (strip s = "" → clean_number float_of_str (PyStr s) = Ret None).
Proof.
  intros Hempty.
  assert (strip s = "" → clean_number float_of_str (PyStr s) = Ret None) as Hb.
  { intros Hs. rewrite clean_number_str, Hs. unfold replace. simpl.
    rewrite Hempty.
    by case_bool_decide. }
  split; [|done].
  destruct (decide (strip s = "")) as [Hs|Hs].
  - rewrite Hb by done. by rewrite Hs.
  - rewrite !clean_number_str, strip_strip.
    rewrite (bool_decide_eq_false_2 (strip s = "")) by done.
    rewrite bool_decide_eq_false_2; [done|]. by intros ->.
Qed.

(** ** The properties on the sample tables *)

Import Samples.

(** The provider knows "Kiruna, Sweden" and not "KIRUNA, Sweden"; the row
    that writes KIRUNA is given Kiruna's coordinates all the same, because
    the first row asked. *)
Lemma first_request_decides_witness :
  provider "KIRUNA, Sweden" = Ret None ∧
  (apply_fill_lat_lon provider ctx0 kiruna_rows).1 !! 3%nat
    = Some (PyFloat f67, PyFloat f20).
Proof.
  split; [reflexivity|].
  destruct (first_request_decides provider ctx0 []
              (sheet_row "snow" (PyStr "Kiruna") PyNone PyNone)
              [ sheet_row "wind" (PyStr " kiruna ") PyNone PyNone;
                sheet_row "rain" (PyStr "Atlantis") PyNone PyNone;
                sheet_row "rain" (PyStr "KIRUNA") PyNone PyNone ]
              "kiruna" "Kiruna" 3%nat
              (sheet_row "rain" (PyStr "KIRUNA") PyNone PyNone)
              eq_refl (Forall_nil_2 _) eq_refl eq_refl eq_refl eq_refl)
    as [_ Hfound].
  apply (Hfound (GeoLocation f67 f20)). reflexivity.
Defined.

(** The sample workbook: three rows in all, and the rows tagged "rain" are
    the two of the first sheet. *)
Lemma read_events_by_sheet_witness :
  ∃ events, read_events workbook = Ret events ∧
    length events = 3%nat ∧
    filter (λ row, Sheet row = "rain") events
      = [ sheet_row "rain" (PyStr "Kiruna") PyNone PyNone;
          sheet_row "rain" (PyStr "Narvik") PyNone PyNone ].
Proof.
  destruct read_events_by_sheet as [_ Hread].
  destruct (Hread ("rain", [ sheet_row "" (PyStr "Kiruna") PyNone PyNone;
                             sheet_row "" (PyStr "Narvik") PyNone PyNone ])
                  [ ("snow", [ sheet_row "" (PyStr "Kiruna")
                                 (PyFloat f67) (PyFloat f20) ]) ])
    as (events & Hev & Hlen & Hsheet).
  exists events. split_and!; [exact Hev|exact Hlen|].
  rewrite (Hsheet ltac:(vm_compute; repeat constructor; set_solver) "rain" _
             ltac:(left)).
  reflexivity.
Defined.

(** Blanks around "48,5" change nothing with the reference parser. *)
Lemma clean_number_ignores_blank_ends_witness :
  clean_number decimal_of_str (PyStr "  48,5 ")
    = clean_number decimal_of_str (PyStr "48,5") ∧
  clean_number decimal_of_str (PyStr "   ") = Ret None.
Proof.
  split.
  - apply (clean_number_ignores_blank_ends decimal_of_str "  48,5 ").
    reflexivity.
  - apply (clean_number_ignores_blank_ends decimal_of_str "   ");
      reflexivity.
Defined.

End GeocodeMore.

(* ===================================================================== *)
(** * Properties of app.py                                                *)
(* ===================================================================== *)

Module AppProofs.
Import Py App.

(** ** [load_events] *)

Section LoadFacts.
Variable float_of_str : string → option float.

Local Abbreviation to_num := (to_numeric float_of_str).
Local Abbreviation load := (load_events float_of_str).

Lemma to_numeric_isna val : pd_isna val = true → is_nan (to_num val) = true.
Proof. by destruct val. Qed.

Lemma load_events_cons s table :
  load (s :: table) =
  if decide (is_nan (to_num (st_Latitude s)) = false
             ∧ is_nan (to_num (st_Longitude s)) = false)
  then {| Sheet := st_Sheet s; Location := st_Location s; Date := st_Date s;
          Latitude := to_num (st_Latitude s);
          Longitude := to_num (st_Longitude s);
          year := ts_year <$> st_Date s |} :: load table
  else load table.
Proof.
  unfold load_events. rewrite fmap_cons, filter_cons.
  by destruct (decide (is_nan (to_num (st_Latitude s)) = false
                       ∧ is_nan (to_num (st_Longitude s)) = false)).
Qed.

Lemma load_events_present table r :
  r ∈ load table → is_nan (Latitude r) = false ∧ is_nan (Longitude r) = false.
Proof.
  induction table as [|s table IH]; [by intros ?%not_elem_of_nil|].
  rewrite load_events_cons. case_decide as Hs; [|done].
  intros [->|Hin]%elem_of_cons; [done|by apply IH].
Qed.

Lemma load_events_drops table :
  load table =
  load (filter (λ s, pd_isna (st_Latitude s) = false
                     ∧ pd_isna (st_Longitude s) = false) table).
Proof.
  induction table as [|s table IH]; [done|].
  rewrite filter_cons. case_decide as Hs.
  - rewrite !load_events_cons. by rewrite IH.
  - rewrite load_events_cons, decide_False; [done|].
    intros [Hlat Hlon]. apply Hs.
    split; apply not_true_iff_false; intros Hna;
      apply to_numeric_isna in Hna; congruence.
Qed.

(** C10. Every row of the table [load_events] returns has a latitude and a
    longitude; a stored row in which either is missing never reaches it
    (dropping those rows beforehand gives the same table); hence every row
    a map-mode or time-lapse query selects has both. *)
Theorem load_events_only_mappable table :
  (∀ r, r ∈ load table →
        is_nan (Latitude r) = false ∧ is_nan (Longitude r) = false) ∧
  load table =
    load (filter (λ s, pd_isna (st_Latitude s) = false
                       ∧ pd_isna (st_Longitude s) = false) table) ∧
  (∀ selected_years selected_types r,
     r ∈ filtered (load table) selected_years selected_types →
     is_nan (Latitude r) = false ∧ is_nan (Longitude r) = false) ∧
  (∀ year_tl cumulative selected_types_tl r,
     r ∈ df_tl (load table) year_tl cumulative selected_types_tl →
     is_nan (Latitude r) = false ∧ is_nan (Longitude r) = false).
Proof.
  split_and!.
  - apply load_events_present.
  - apply load_events_drops.
  - intros ys ts r [_ Hr]%list_elem_of_filter. by eapply load_events_present.
  - intros y c ts r [_ Hr]%list_elem_of_filter. by eapply load_events_present.
Qed.
End LoadFacts.

(** ** Sorted sets of years *)

Lemma elem_of_sorted_set l y : y ∈ sorted_set l ↔ y ∈ l.
Proof.
  unfold sorted_set. by rewrite merge_sort_Permutation, elem_of_remove_dups.
Qed.

Lemma NoDup_sorted_set l : NoDup (sorted_set l).
Proof.
  unfold sorted_set. rewrite merge_sort_Permutation. apply NoDup_remove_dups.
Qed.

Lemma StronglySorted_sorted_set l : StronglySorted Z.le (sorted_set l).
Proof. apply (StronglySorted_merge_sort Z.le). Qed.

Lemma sorted_set_fixed l :
  StronglySorted Z.le l → NoDup l → sorted_set l = l.
Proof.
  intros Hsorted Hnodup.
  apply (StronglySorted_unique Z.le); [apply StronglySorted_sorted_set|done|].
  apply NoDup_Permutation; [apply NoDup_sorted_set|done|].
  apply elem_of_sorted_set.
Qed.

Lemma StronglySorted_filter (P : Z → Prop) `{∀ y, Decision (P y)} l :
  StronglySorted Z.le l → StronglySorted Z.le (filter P l).
Proof.
  induction l as [|x l IH]; [done|].
  rewrite StronglySorted_cons. intros [Hx Hl].
  rewrite filter_cons. case_decide; [|by apply IH].
  apply StronglySorted_cons. split; [|by apply IH].
  apply Forall_forall. intros y [_ Hy]%list_elem_of_filter.
  by eapply Forall_forall in Hx.
Qed.

(** [all_years] holds exactly the years that occur in the table. *)
Lemma elem_of_all_years df y :
  y ∈ all_years df ↔ ∃ r, r ∈ df ∧ year r = Some y.
Proof. unfold all_years. by rewrite elem_of_sorted_set, list_elem_of_omap. Qed.

Lemma elem_of_decades df d :
  d ∈ decades df ↔ ∃ y, y ∈ all_years df ∧ d = (y `div` 10) * 10.
Proof.
  unfold decades. rewrite elem_of_sorted_set, list_elem_of_fmap.
  split; intros (y & H1 & H2); exists y; done.
Qed.

(** ** Labels *)

Lemma append_char_inj s1 s2 c : s1 +:+ String c "" = s2 +:+ String c "" → s1 = s2.
Proof.
  revert s2. induction s1 as [|a s1 IH]; intros [|b s2]; simpl; try done.
  - intros [= -> H]. by destruct s2.
  - intros [= -> H]. by destruct s1.
  - intros [= -> H]. f_equal. by apply IH.
Qed.

Lemma decade_label_inj d1 d2 : decade_label d1 = decade_label d2 → d1 = d2.
Proof.
  unfold decade_label. intros H%append_char_inj. by apply (inj pretty).
Qed.

(** The second loop: the entry of a decade label is the one its decade
    wrote, whatever the dictionary held before. *)
Lemma lookup_decade_loop (f : Z → list Z) ds d (m : gmap string (list Z)) :
  foldl (λ m d, <[decade_label d := f d]> m) m ds !! decade_label d =
  if decide (d ∈ ds) then Some (f d) else m !! decade_label d.
Proof.
  revert m. induction ds as [|d' ds IH]; intros m.
  { by destruct (decide (d ∈ [])) as [?%not_elem_of_nil|]. }
  simpl. rewrite IH. destruct (decide (d ∈ ds)) as [Hin|Hnin].
  - rewrite decide_True; [done|by right].
  - destruct (decide (d = d')) as [->|Hne].
    + rewrite decide_True by left. apply lookup_insert_eq.
    + rewrite decide_False.
      * apply lookup_insert_ne. by intros ?%decade_label_inj.
      * by intros [?|?]%elem_of_cons.
Qed.

Lemma label_to_years_decade df d :
  label_to_years df !! decade_label d =
  if decide (d ∈ decades df)
  then Some (filter (λ y, d ≤ y ∧ y ≤ d + 9) (all_years df))
  else foldl (λ m y, <[pretty y := [y]]> m) (∅ : gmap string (list Z))
             (all_years df) !! decade_label d.
Proof.
  unfold label_to_years.
  apply (lookup_decade_loop
           (λ d, filter (λ y, d ≤ y ∧ y ≤ d + 9) (all_years df))).
Qed.

(** C7. For a decade [d] of the data, the label [f"{d}s"] is mapped to the
    data years within [d, d+9], in order, and selecting that label alone
    resolves to exactly those years; selecting no label resolves to all data
    years, which are the years that occur in the table. *)
Theorem decade_label_years_and_empty_selection df :
  (∀ d, d ∈ decades df →
     label_to_years df !! decade_label d
       = Some (filter (λ y, d ≤ y ∧ y ≤ d + 9) (all_years df)) ∧
     selected_years df [decade_label d]
       = filter (λ y, d ≤ y ∧ y ≤ d + 9) (all_years df) ∧
     (∀ y, y ∈ selected_years df [decade_label d]
           ↔ (∃ r, r ∈ df ∧ year r = Some y) ∧ d ≤ y ∧ y ≤ d + 9)) ∧
  selected_years df [] = all_years df ∧
  (∀ y, y ∈ selected_years df [] ↔ ∃ r, r ∈ df ∧ year r = Some y).
Proof.
  split_and!.
  - intros d Hd.
    assert (label_to_years df !! decade_label d
            = Some (filter (λ y, d ≤ y ∧ y ≤ d + 9) (all_years df))) as Hlabel.
    { by rewrite label_to_years_decade, decide_True. }
    assert (selected_years df [decade_label d]
            = filter (λ y, d ≤ y ∧ y ≤ d + 9) (all_years df)) as Hsel.
    { unfold selected_years. simpl. rewrite Hlabel. simpl.
      rewrite app_nil_r. apply sorted_set_fixed.
      - apply StronglySorted_filter, StronglySorted_sorted_set.
      - apply NoDup_filter, NoDup_sorted_set. }
    split_and!; [done..|].
    intros y. rewrite Hsel, list_elem_of_filter, elem_of_all_years. tauto.
  - done.
  - intros y. apply elem_of_all_years.
Qed.

(** ** The two queries *)

Lemma filter_ext_in {A} (P Q : A → Prop) `{∀ x, Decision (P x)}
    `{∀ x, Decision (Q x)} (l : list A) :
  (∀ x, x ∈ l → P x ↔ Q x) → filter P l = filter Q l.
Proof.
  induction l as [|x l IH]; intros HPQ; [done|].
  rewrite !filter_cons.
  rewrite IH by (intros y Hy; apply HPQ; by right).
  destruct (decide (P x)) as [HP|HP], (decide (Q x)) as [HQ|HQ]; try done.
  - destruct HQ. apply HPQ; [left|done].
  - destruct HP. apply HPQ; [left|done].
Qed.

Lemma tl_mask_year year_tl cumulative selected r :
  tl_mask year_tl cumulative selected r =
  if truthy selected
  then spec_year_test year_tl cumulative r && isin (Sheet r) (default [] selected)
  else spec_year_test year_tl cumulative r.
Proof.
  unfold tl_mask, spec_year_test.
  by destruct cumulative, (year r), (truthy selected).
Qed.

(** With an empty selection, or with no [Sheet] column, the type filter is
    skipped. *)
Lemma mask_falsy selected_years selected r :
  truthy selected = false →
  mask selected_years selected r = isin (year r) selected_years.
Proof. unfold mask. by intros ->. Qed.

Lemma tl_mask_falsy year_tl cumulative selected r :
  truthy selected = false →
  tl_mask year_tl cumulative selected r = spec_year_test year_tl cumulative r.
Proof. rewrite tl_mask_year. by intros ->. Qed.

(** C1, as the code has it. An empty collection of selected types switches
    the type filter off, in both modes: the query returns every row that
    passes the year test, whatever its type, just as it does when the table
    has no [Sheet] column. *)
Theorem empty_type_selection_is_no_filter df selected_years year_tl cumulative :
  filtered df selected_years (Some [])
    = filter (λ r, isin (year r) selected_years = true) df ∧
  filtered df selected_years (Some []) = filtered df selected_years None ∧
  df_tl df year_tl cumulative (Some [])
    = filter (λ r, spec_year_test year_tl cumulative r = true) df ∧
  df_tl df year_tl cumulative (Some []) = df_tl df year_tl cumulative None ∧
  (∀ types, filtered df selected_years (Some types)
              ⊆ filtered df selected_years (Some [])) ∧
  (∀ types, df_tl df year_tl cumulative (Some types)
              ⊆ df_tl df year_tl cumulative (Some [])).
Proof.
  split_and!.
  - done.
  - done.
  - apply list_filter_iff. intros r. by rewrite tl_mask_falsy.
  - apply list_filter_iff. intros r. by rewrite !tl_mask_falsy.
  - intros types r. unfold filtered. rewrite !list_elem_of_filter.
    intros [Hm Hr]. split; [|done]. rewrite mask_falsy by done.
    unfold mask in Hm. destruct (truthy (Some types)); [|done].
    by apply andb_true_iff in Hm as [? _].
  - intros types r. unfold df_tl. rewrite !list_elem_of_filter.
    intros [Hm Hr]. split; [|done]. rewrite tl_mask_falsy by done.
    rewrite tl_mask_year in Hm. destruct (truthy (Some types)); [|done].
    by apply andb_true_iff in Hm as [? _].
Qed.

(** C6, as the code has it. A cumulative time-lapse query returns the rows
    of the map-mode query over the data years up to the target year, for
    every selection of types. With at least one type selected the query is
    the specification's: year up to (or equal to) the target and type in
    the selection. With none selected it applies the year test alone. *)
Theorem timelapse_rows df year_tl :
  (∀ selected,
     df_tl df year_tl true selected
       = filtered df (filter (λ y, y ≤ year_tl) (all_years df)) selected) ∧
  (∀ cumulative t types,
     df_tl df year_tl cumulative (Some (t :: types))
       = spec_timelapse df year_tl cumulative (t :: types)) ∧
  (∀ selected_years t types,
     filtered df selected_years (Some (t :: types))
       = spec_map_mode df selected_years (t :: types)) ∧
  (∀ cumulative,
     df_tl df year_tl cumulative (Some [])
       = filter (λ r, spec_year_test year_tl cumulative r = true) df).
Proof.
  split_and!.
  - intros selected. apply filter_ext_in. intros r Hr.
    assert (spec_year_test year_tl true r
            = isin (year r) (filter (λ y, y ≤ year_tl) (all_years df))) as Hy.
    { unfold spec_year_test, isin. destruct (year r) as [y|] eqn:Hyear; [|done].
      apply bool_decide_ext. rewrite list_elem_of_filter, elem_of_all_years.
      split; [|by intros [? _]]. intros Hle. split; [done|by exists r]. }
    rewrite tl_mask_year, Hy. unfold mask. done.
  - intros cumulative t types. apply list_filter_iff. intros r.
    rewrite tl_mask_year. simpl. by rewrite andb_true_iff.
  - intros selected_years t types. apply list_filter_iff. intros r.
    unfold mask. simpl. by rewrite andb_true_iff.
  - intros cumulative. apply list_filter_iff. intros r.
    by rewrite tl_mask_falsy.
Qed.

(** ** The properties on the sample tables *)

Import Samples.

(** C1 as stated fails: with every type deselected both queries still
    return rows, of every type. *)
Lemma empty_type_selection_returns_rows :
  filtered session (all_years session) (Some []) = session ∧
  df_tl session 1995 false (Some [])
    = [session_row 1995 "rain"; session_row 1995 "wind"].
Proof. split; reflexivity. Qed.

(** C6 as stated fails on the empty selection: the specification's query
    selects nothing, the code's returns the rows up to the target year. *)
Lemma timelapse_empty_selection_differs :
  spec_timelapse session 2001 true [] = [] ∧
  df_tl session 2001 true (Some [])
    = [session_row 1995 "rain"; session_row 1991 "snow";
       session_row 2001 "rain"; session_row 1995 "wind"] ∧
  spec_timelapse session 2001 false [] = [] ∧
  df_tl session 2001 false (Some []) = [session_row 2001 "rain"].
Proof. split_and!; reflexivity. Qed.

(** The 1990s of the sample table: the label resolves to 1991 and 1995. *)
Lemma decade_label_years_and_empty_selection_witness :
  decade_label 1990 = "1990s" ∧
  1990 ∈ decades session ∧
  label_to_years session !! decade_label 1990 = Some [1991; 1995] ∧
  selected_years session [decade_label 1990] = [1991; 1995] ∧
  selected_years session [] = [1991; 1995; 2001; 2005].
Proof.
  assert (1990 ∈ decades session) as Hd by (vm_compute; left).
  destruct (decade_label_years_and_empty_selection session)
    as (Hdecade & Hall & _).
  destruct (Hdecade 1990 Hd) as (Hlabel & Hsel & _).
  split_and!; [reflexivity|exact Hd| | |].
  - rewrite Hlabel. reflexivity.
  - rewrite Hsel. reflexivity.
  - rewrite Hall. reflexivity.
Defined.

(** Of the four sample rows of the database the two with both coordinates
    are loaded, the text of one read as a number. *)
Lemma load_events_only_mappable_witness :
  length (load_events decimal_of_str db_rows) = 2%nat ∧
  Forall (λ r, is_nan (Latitude r) = false ∧ is_nan (Longitude r) = false)
         (filtered (load_events decimal_of_str db_rows) [1995] (Some ["rain"])).
Proof.
  destruct (load_events_only_mappable decimal_of_str db_rows)
    as (_ & Hdrop & Hmap & _).
  split.
  - rewrite Hdrop. reflexivity.
  - apply Forall_forall. intros r Hr. by apply (Hmap [1995] (Some ["rain"])).
Defined.

End AppProofs.

(* ===================================================================== *)
(** * Further properties of app.py                                        *)
(* ===================================================================== *)

Module AppMore.
Import Py App AppProofs.

(** ** Resolving labels *)

Lemma sorted_set_unique l l0 :
  StronglySorted Z.le l0 → NoDup l0 → (∀ y, y ∈ l ↔ y ∈ l0) →
  sorted_set l = l0.
Proof.
  intros Hsorted Hnodup Hiff.
  apply (StronglySorted_unique Z.le); [apply StronglySorted_sorted_set|done|].
  apply NoDup_Permutation; [apply NoDup_sorted_set|done|].
  intros y. by rewrite elem_of_sorted_set.
Qed.

(** Every list in [label_to_years] is made of data years. *)
Lemma label_to_years_data_years df label years y :
  label_to_years df !! label = Some years → y ∈ years → y ∈ all_years df.
Proof.
  unfold label_to_years.
  set (P := λ (m : gmap string (list Z)),
              ∀ label years, m !! label = Some years →
                             ∀ y, y ∈ years → y ∈ all_years df).
  assert (∀ ds m, P m →
            P (foldl (λ m d,
                 <[decade_label d :=
                     filter (λ y, d ≤ y ∧ y ≤ d + 9) (all_years df)]> m) m ds))
    as Hdecades.
  { induction ds as [|d ds IH]; intros m Hm; [done|]. simpl. apply IH.
    intros l ys. rewrite lookup_insert. case_decide.
    - intros [= <-] y' [_ Hy']%list_elem_of_filter. done.
    - apply Hm. }
  assert (∀ ys m, (∀ y, y ∈ ys → y ∈ all_years df) → P m →
            P (foldl (λ m y, <[pretty y := [y]]> m) m ys)) as Hyears.
  { induction ys as [|y0 ys IH]; intros m Hys Hm; [done|]. simpl. apply IH.
    - intros y' Hy'. apply Hys. by right.
    - intros l ys'. rewrite lookup_insert. case_decide.
      + intros [= <-] y' ->%list_elem_of_singleton. apply Hys. by left.
      + apply Hm. }
  intros Hl Hy. eapply (Hdecades (decades df)); [|exact Hl|exact Hy].
  apply Hyears; [done|]. intros l ys. by rewrite lookup_empty.
Qed.

Lemma decade_of_year y : (y `div` 10) * 10 ≤ y ∧ y ≤ (y `div` 10) * 10 + 9.
Proof. pose proof (Z.div_mod y 10). pose proof (Z.mod_pos_bound y 10). lia. Qed.

Lemma elem_of_decade_labels_years df y :
  y ∈ (label ← decade_labels df; default [] (label_to_years df !! label))
  ↔ y ∈ all_years df.
Proof.
  rewrite list_elem_of_bind. split.
  - intros (label & Hy & Hlabel).
    destruct (label_to_years df !! label) as [years|] eqn:Hl; simpl in Hy.
    + by eapply label_to_years_data_years.
    + by apply not_elem_of_nil in Hy.
  - intros Hy. exists (decade_label ((y `div` 10) * 10)).
    assert ((y `div` 10) * 10 ∈ decades df) as Hd.
    { apply elem_of_decades. by exists y. }
    split; [|apply list_elem_of_fmap; by eexists].
    rewrite label_to_years_decade, decide_True by done. simpl.
    apply list_elem_of_filter. split; [apply decade_of_year|done].
Qed.

Lemma selected_years_all_decades df :
  selected_years df (decade_labels df) = all_years df.
Proof.
  unfold selected_years.
  destruct (decade_labels df) as [|l ls] eqn:Hls; [done|].
  rewrite <- Hls. apply sorted_set_unique;
    [apply StronglySorted_sorted_set|apply NoDup_sorted_set|].
  apply elem_of_decade_labels_years.
Qed.

(** X8. Whatever labels are selected, the years they resolve to are years
    of the data, in increasing order and without repeats; a label the
    dictionary does not know adds nothing; and the default selection, all
    decade labels, resolves to all data years. *)
Theorem selected_years_sound df :
  (∀ labels y, y ∈ selected_years df labels → y ∈ all_years df) ∧
  (∀ labels, StronglySorted Z.le (selected_years df labels)
             ∧ NoDup (selected_years df labels)) ∧
  (∀ label labels, label_to_years df !! label = None → labels ≠ [] →
     selected_years df (label :: labels) = selected_years df labels) ∧
  selected_years df (decade_labels df) = all_years df.
Proof.
  split_and!.
  - intros [|label labels] y; [done|].
    unfold selected_years. rewrite elem_of_sorted_set, list_elem_of_bind.
    intros (l & Hy & _).
    destruct (label_to_years df !! l) as [years|] eqn:Hl; simpl in Hy.
    + by eapply label_to_years_data_years.
    + by apply not_elem_of_nil in Hy.
  - intros [|label labels]; unfold selected_years;
      split; first [apply StronglySorted_sorted_set|apply NoDup_sorted_set].
  - intros label [|l labels] Hnone Hne; [done|].
    unfold selected_years. simpl. by rewrite Hnone.
  - apply selected_years_all_decades.
Qed.

(** ** The labels of single years *)

(** No decimal numeral ends in the letter of a decade label. *)
Lemma pretty_N_go_not_decade x s :
  (∀ t, s ≠ t +:+ "s") → ∀ t, pretty_N_go x s ≠ t +:+ "s".
Proof.
  revert s. induction (N.lt_wf_0 x) as [x _ IH]; intros s Hs.
  assert (x = 0 ∨ 0 < x)%N as [->|?] by lia.
  - by rewrite pretty_N_go_0.
  - rewrite pretty_N_go_step by done. apply IH.
    { by apply N.div_lt. }
    intros [|c t]; simpl.
    + unfold pretty_N_char. by repeat case_match.
    + intros [= _ Ht]. by eapply Hs.
Qed.

Lemma pretty_N_not_decade (x : N) t : pretty x ≠ t +:+ "s".
Proof.
  unfold pretty, pretty_N. case_decide.
  - by destruct t as [|c [|c' t]].
  - apply pretty_N_go_not_decade. by intros [|c t'].
Qed.

Lemma pretty_Z_not_decade (y : Z) t : pretty y ≠ t +:+ "s".
Proof.
  destruct y as [|p|p]; unfold pretty, pretty_Z.
  - by destruct t as [|c [|c' t]].
  - apply (pretty_N_not_decade (N.pos p)).
  - destruct t as [|c t]; simpl; [done|].
    intros [= _ Ht]. by eapply (pretty_N_not_decade (N.pos p)).
Qed.

Lemma year_label_not_decade_label (y d : Z) : pretty y ≠ decade_label d.
Proof. apply pretty_Z_not_decade. Qed.

(** The first loop: the entry of a year label is the one its year wrote. *)
Lemma lookup_year_loop ys (y : Z) (m : gmap string (list Z)) :
  foldl (λ m y, <[pretty y := [y]]> m) m ys !! pretty y =
  if decide (y ∈ ys) then Some [y] else m !! pretty y.
Proof.
  revert m. induction ys as [|y' ys IH]; intros m.
  { by destruct (decide (y ∈ [])) as [?%not_elem_of_nil|]. }
  simpl. rewrite IH. destruct (decide (y ∈ ys)) as [Hin|Hnin].
  - rewrite decide_True; [done|by right].
  - destruct (decide (y = y')) as [->|Hne].
    + rewrite decide_True by left. apply lookup_insert_eq.
    + rewrite decide_False.
      * apply lookup_insert_ne. by intros ?%(inj pretty).
      * by intros [?|?]%elem_of_cons.
Qed.

(** The second loop leaves the entries of the year labels alone. *)
Lemma lookup_decade_loop_year (f : Z → list Z) ds (y : Z)
    (m : gmap string (list Z)) :
  foldl (λ m d, <[decade_label d := f d]> m) m ds !! pretty y = m !! pretty y.
Proof.
  revert m. induction ds as [|d ds IH]; intros m; [done|].
  simpl. rewrite IH. apply lookup_insert_ne.
  intros Heq. by eapply year_label_not_decade_label.
Qed.

Lemma label_to_years_year df (y : Z) :
  label_to_years df !! pretty y =
  if decide (y ∈ all_years df) then Some [y] else None.
Proof.
  unfold label_to_years.
  rewrite (lookup_decade_loop_year
             (λ d, filter (λ y, d ≤ y ∧ y ≤ d + 9) (all_years df))).
  rewrite lookup_year_loop. by case_decide.
Qed.

(** X9. The selector offers no label twice, and every label it offers is a
    key of [label_to_years]: a year label stands for that year alone (no
    year label is also a decade label), a decade label for the data years
    of its decade. *)
Theorem year_options_resolve df :
  NoDup (year_options df) ∧
  (∀ label, label ∈ year_options df → is_Some (label_to_years df !! label)) ∧
  (∀ y, y ∈ all_years df →
     label_to_years df !! pretty y = Some [y] ∧
     selected_years df [pretty y] = [y]).
Proof.
  split_and!.
  - unfold year_options, decade_labels, year_labels. apply NoDup_app.
    split_and!.
    + apply (NoDup_fmap_2_strong decade_label); [|apply NoDup_sorted_set].
      intros d1 d2 _ _. apply decade_label_inj.
    + intros label (d & -> & _)%list_elem_of_fmap (y & Hy & _)%list_elem_of_fmap.
      by eapply year_label_not_decade_label.
    + apply (NoDup_fmap_2 pretty), NoDup_sorted_set.
  - intros label. unfold year_options, decade_labels, year_labels.
    rewrite elem_of_app, !list_elem_of_fmap.
    intros [(d & -> & Hd)|(y & -> & Hy)].
    + rewrite label_to_years_decade, decide_True by done. by eexists.
    + rewrite label_to_years_year, decide_True by done. by eexists.
  - intros y Hy.
    assert (label_to_years df !! pretty y = Some [y]) as Hl
      by by rewrite label_to_years_year, decide_True.
    split; [done|]. unfold selected_years. simpl. rewrite Hl. simpl.
    apply sorted_set_fixed; [repeat constructor|].
    apply NoDup_singleton.
Qed.

(** ** What a query can return *)

Lemma isin_true `{EqDecision A} (cell : option A) values :
  isin cell values = true ↔ ∃ a, cell = Some a ∧ a ∈ values.
Proof.
  unfold isin. destruct cell as [a|].
  - rewrite bool_decide_eq_true. naive_solver.
  - split; [done|]. by intros (a & ? & _).
Qed.

Lemma mask_true selected_years selected_types r :
  mask selected_years selected_types r = true ↔
  (∃ y, year r = Some y ∧ y ∈ selected_years) ∧
  (truthy selected_types = true →
   ∃ t, Sheet r = Some t ∧ t ∈ default [] selected_types).
Proof.
  unfold mask. destruct (truthy selected_types).
  - rewrite andb_true_iff, !isin_true. naive_solver.
  - rewrite isin_true. naive_solver.
Qed.

Lemma tl_mask_true year_tl cumulative selected r :
  tl_mask year_tl cumulative selected r = true ↔
  (∃ y, year r = Some y ∧ if cumulative then y ≤ year_tl else y = year_tl) ∧
  (truthy selected = true → ∃ t, Sheet r = Some t ∧ t ∈ default [] selected).
Proof.
  rewrite tl_mask_year. unfold spec_year_test.
  destruct (truthy selected); rewrite ?andb_true_iff, ?isin_true;
    destruct (year r) as [y|], cumulative;
    rewrite ?bool_decide_eq_true; naive_solver.
Qed.

(** X10. A query returns rows of the table, in the order of the table, and
    every row it returns has a year: a row whose date is missing is in no
    map and no time-lapse, whatever is selected. When types are selected,
    every row returned has one of them. *)
Theorem queries_return_dated_rows df :
  (∀ selected_years selected_types,
     sublist (filtered df selected_years selected_types) df ∧
     ∀ r, r ∈ filtered df selected_years selected_types →
       (∃ y, year r = Some y ∧ y ∈ selected_years) ∧
       (truthy selected_types = true →
        ∃ t, Sheet r = Some t ∧ t ∈ default [] selected_types)) ∧
  (∀ year_tl cumulative selected,
     sublist (df_tl df year_tl cumulative selected) df ∧
     ∀ r, r ∈ df_tl df year_tl cumulative selected →
       (∃ y, year r = Some y ∧ if cumulative then y ≤ year_tl else y = year_tl) ∧
       (truthy selected = true →
        ∃ t, Sheet r = Some t ∧ t ∈ default [] selected)).
Proof.
  split.
  - intros ys ts. split; [apply sublist_filter|].
    intros r [Hm _]%list_elem_of_filter. by apply mask_true.
  - intros y c ts. split; [apply sublist_filter|].
    intros r [Hm _]%list_elem_of_filter. by apply tl_mask_true.
Qed.

Lemma elem_of_type_options df t :
  t ∈ type_options df ↔ ∃ r, r ∈ df ∧ Sheet r = Some t.
Proof.
  unfold type_options.
  by rewrite merge_sort_Permutation, elem_of_remove_dups, list_elem_of_omap.
Qed.

(** X11. The view the page opens with, all decades and all types selected,
    shows exactly the rows that have a year and a type. *)
Theorem default_view_rows df r :
  r ∈ filtered df (selected_years df (decade_labels df))
                  (Some (type_options df))
  ↔ r ∈ df ∧ is_Some (year r) ∧
    (type_options df ≠ [] → is_Some (Sheet r)).
Proof.
  rewrite selected_years_all_decades.
  unfold filtered. rewrite list_elem_of_filter, mask_true. split.
  - intros [[(y & Hy & _) Ht] Hr]. split_and!; [done|by eexists|].
    intros Hne. destruct (type_options df) as [|t ts] eqn:Hts; [done|].
    destruct (Ht eq_refl) as (t' & -> & _). by eexists.
  - intros (Hr & [y Hy] & Ht). split; [|done]. split.
    + exists y. split; [done|]. apply elem_of_all_years. by exists r.
    + intros Htruthy.
      destruct (type_options df) as [|t ts] eqn:Hts; [done|].
      destruct Ht as [t' Ht']; [done|]. exists t'. split; [done|].
      simpl. rewrite <- Hts. apply elem_of_type_options. by exists r.
Qed.

(** ** The time-lapse year by year *)

Lemma sublist_filter_impl {A} (P Q : A → Prop) `{∀ x, Decision (P x)}
    `{∀ x, Decision (Q x)} (l : list A) :
  (∀ x, P x → Q x) → sublist (filter P l) (filter Q l).
Proof.
  intros HPQ. induction l as [|x l IH]; [done|].
  rewrite !filter_cons.
  destruct (decide (P x)) as [HP|HP], (decide (Q x)) as [HQ|HQ].
  - by apply sublist_skip.
  - by destruct HQ; apply HPQ.
  - by apply sublist_cons.
  - done.
Qed.

Lemma length_filter_disjoint_or {A} (P Q : A → Prop) `{∀ x, Decision (P x)}
    `{∀ x, Decision (Q x)} (l : list A) :
  (∀ x, P x → Q x → False) →
  length (filter (λ x, P x ∨ Q x) l)
  = (length (filter P l) + length (filter Q l))%nat.
Proof.
  intros Hdisj. induction l as [|x l IH]; [done|].
  rewrite !filter_cons.
  destruct (decide (P x)) as [HP|HP], (decide (Q x)) as [HQ|HQ].
  - destruct (Hdisj x HP HQ).
  - rewrite decide_True by by left. simpl. lia.
  - rewrite decide_True by by right. simpl. lia.
  - rewrite decide_False by tauto. done.
Qed.

Lemma filter_none {A} (P : A → Prop) `{∀ x, Decision (P x)} (l : list A) :
  (∀ x, ¬ P x) → filter P l = [].
Proof.
  intros HP. induction l as [|x l IH]; [done|].
  by rewrite filter_cons, decide_False.
Qed.

(** Rows whose cell is among [ks], counted value by value. *)
Lemma length_filter_by_value `{EqDecision A} (cell : row → option A)
    (T : row → Prop) `{∀ r, Decision (T r)} df (ks : list A) :
  NoDup ks →
  length (filter (λ r, isin (cell r) ks = true ∧ T r) df)
  = sum_list ((λ k, length (filter (λ r, cell r = Some k ∧ T r) df)) <$> ks).
Proof.
  induction ks as [|k ks IH]; intros Hnd.
  { simpl. rewrite filter_none; [done|].
    intros r [(a & _ & ?%not_elem_of_nil)%isin_true _]. done. }
  apply NoDup_cons in Hnd as [Hk Hnd].
  rewrite fmap_cons. cbn [sum_list_with]. unfold id at 1.
  rewrite <- IH by done.
  rewrite <- length_filter_disjoint_or.
  - f_equal. apply list_filter_iff. intros r.
    rewrite !isin_true. split.
    + intros [(a & Ha & [->|Hin]%elem_of_cons) HT]; [by left|].
      right. split; [|done]. by exists a.
    + intros [[Hr HT]|[(a & Ha & Hin) HT]]; (split; [|done]).
      * exists k. split; [done|by left].
      * exists a. split; [done|by right].
  - intros r [Hr _] [(a & Ha & Hin)%isin_true _].
    rewrite Hr in Ha. by injection Ha as ->.
Qed.

(** X12. In time-lapse the rows of a year are among the rows up to that
    year, moving the slider up never removes a row from the cumulative
    map, and the cumulative map holds as many rows as the single maps of
    the data years up to the target hold together. *)
Theorem timelapse_cumulative_adds_up df year_tl selected :
  sublist (df_tl df year_tl false selected) (df_tl df year_tl true selected) ∧
  (∀ later, year_tl ≤ later →
     sublist (df_tl df year_tl true selected) (df_tl df later true selected)) ∧
  length (df_tl df year_tl true selected)
  = sum_list ((λ y, length (df_tl df y false selected))
                <$> filter (λ y, y ≤ year_tl) (all_years df)).
Proof.
  split_and!.
  - apply sublist_filter_impl. intros r. rewrite !tl_mask_true.
    intros [(y & Hy & Heq) Ht]. split; [|done]. exists y. split; [done|lia].
  - intros later Hle. apply sublist_filter_impl. intros r. rewrite !tl_mask_true.
    intros [(y & Hy & Hyle) Ht]. split; [|done]. exists y. split; [done|lia].
  - set (T := λ r : row,
           (if truthy selected then isin (Sheet r) (default [] selected)
            else true) = true).
    assert (∀ r, T r ↔ (truthy selected = true →
                        ∃ t, Sheet r = Some t ∧ t ∈ default [] selected))
      as HT.
    { intros r. unfold T. destruct (truthy selected).
      - rewrite isin_true. naive_solver.
      - naive_solver. }
    transitivity (length (filter
      (λ r, isin (year r) (filter (λ y, y ≤ year_tl) (all_years df)) = true
            ∧ T r) df)).
    + f_equal. apply filter_ext_in. intros r Hr.
      rewrite tl_mask_true, isin_true, HT. split.
      * intros [(y & Hy & Hle) Ht]. split; [|done]. exists y. split; [done|].
        apply list_elem_of_filter. split; [done|].
        apply elem_of_all_years. by exists r.
      * intros [(y & Hy & Hin) Ht]. apply list_elem_of_filter in Hin.
        split; [|done]. exists y. tauto.
    + rewrite (length_filter_by_value year T)
        by apply NoDup_filter, NoDup_sorted_set.
      f_equal. apply list_fmap_ext. intros _ y _. f_equal.
      apply list_filter_iff. intros r.
      rewrite tl_mask_true, HT. split.
      * intros [Hy Ht]. split; [|done]. by exists y.
      * intros [(y' & Hy' & Heq) Ht]. simpl in Heq. by subst.
Qed.

(** ** The counts by type *)

Lemma length_omap_is_Some {A B} (f : A → option B) (l : list A) :
  length (omap f l) = length (filter (λ x, is_Some (f x)) l).
Proof.
  induction l as [|x l IH]; [done|].
  rewrite filter_cons. simpl. destruct (f x) as [b|] eqn:Hf.
  - rewrite decide_True by by eexists. simpl. f_equal. exact IH.
  - rewrite decide_False by by intros [? ?]. exact IH.
Qed.

Lemma type_counts_keys df_tl :
  (type_counts df_tl).*1 = type_options df_tl.
Proof.
  unfold type_counts, type_options. rewrite <- list_fmap_compose.
  apply list_fmap_id.
Qed.

(** X13. The counts below the time-lapse map have one entry for each type
    that occurs among the rows shown, by type name and without repeats;
    each count is the number of rows of that type, so at least one; and
    together the counts are the number of rows that have a type. *)
Theorem type_counts_total df_tl :
  StronglySorted String.le (type_counts df_tl).*1 ∧
  NoDup (type_counts df_tl).*1 ∧
  (∀ t, t ∈ (type_counts df_tl).*1 ↔ ∃ r, r ∈ df_tl ∧ Sheet r = Some t) ∧
  (∀ t n, (t, n) ∈ type_counts df_tl →
     n = length (filter (λ r, Sheet r = Some t) df_tl) ∧ (0 < n)%nat) ∧
  sum_list (type_counts df_tl).*2 = length (omap Sheet df_tl).
Proof.
  split_and!.
  - rewrite type_counts_keys. apply (StronglySorted_merge_sort String.le).
  - rewrite type_counts_keys. unfold type_options.
    rewrite merge_sort_Permutation. apply NoDup_remove_dups.
  - intros t. rewrite type_counts_keys. apply elem_of_type_options.
  - intros t n (t' & [= -> ->] & Ht)%list_elem_of_fmap. split; [done|].
    change (t' ∈ type_options df_tl) in Ht.
    apply elem_of_type_options in Ht as (r & Hr & Ht).
    assert (r ∈ filter (λ r, Sheet r = Some t') df_tl) as Hin
      by by apply list_elem_of_filter.
    destruct (filter _ df_tl); [by apply not_elem_of_nil in Hin|simpl; lia].
  - unfold type_counts. rewrite <- list_fmap_compose.
    rewrite length_omap_is_Some.
    assert (filter (λ r, is_Some (Sheet r)) df_tl
            = filter (λ r, isin (Sheet r) (type_options df_tl) = true ∧ True)
                     df_tl) as ->.
    { apply filter_ext_in. intros r Hr. rewrite isin_true. split.
      - intros [t Ht]. split; [|done]. exists t. split; [done|].
        apply elem_of_type_options. by exists r.
      - intros [(t & Ht & _) _]. by eexists. }
    rewrite (length_filter_by_value Sheet (λ _, True)).
    + f_equal. apply list_fmap_ext. intros _ t _. simpl.
      f_equal. apply list_filter_iff. intros r. tauto.
    + unfold type_options. rewrite merge_sort_Permutation.
      apply NoDup_remove_dups.
Qed.


(** ** The order of the columns *)

Lemma elem_of_list_remove_first x l y :
  NoDup l → y ∈ list_remove_first x l ↔ y ∈ l ∧ y ≠ x.
Proof.
  induction l as [|z l IH]; intros Hnd; simpl.
  { split; [by intros ?%not_elem_of_nil|by intros [?%not_elem_of_nil _]]. }
  apply NoDup_cons in Hnd as [Hz Hnd]. case_bool_decide as Hzx.
  - subst z. rewrite elem_of_cons. split.
    + intros Hy. split; [by right|]. by intros ->.
    + intros [[->|Hy] Hne]; done.
  - rewrite !elem_of_cons, IH by done. split.
    + intros [->|[Hy Hne]]; [split; [by left|done]|split; [by right|done]].
    + intros [[->|Hy] Hne]; [by left|by right].
Qed.

Lemma NoDup_list_remove_first x l : NoDup l → NoDup (list_remove_first x l).
Proof.
  induction l as [|z l IH]; intros Hnd; simpl; [done|].
  apply NoDup_cons in Hnd as [Hz Hnd]. case_bool_decide; [done|].
  apply NoDup_cons. split; [|by apply IH].
  rewrite elem_of_list_remove_first by done. tauto.
Qed.

Lemma list_remove_first_app x (l1 l2 : list string) :
  x ∉ l1 →
  list_remove_first x (l1 ++ l2)%list = (l1 ++ list_remove_first x l2)%list.
Proof.
  induction l1 as [|z l1 IH]; intros Hx; [done|].
  apply not_elem_of_cons in Hx as [Hne Hx]. simpl.
  rewrite bool_decide_eq_false_2 by done. by rewrite IH.
Qed.

Lemma NoDup_core_order : NoDup core_order.
Proof. apply (bool_decide_unpack _). by vm_compute. Qed.

Lemma additional_not_core : "Additional Information" ∉ core_order.
Proof. apply (bool_decide_unpack _). by vm_compute. Qed.

(** The loop over [numeric_cols_all] only appends columns of the table
    that are not in the list yet. *)
Lemma numeric_loop (tc nums order : list string) :
  NoDup order → (∀ c, c ∈ order → c ∈ tc) →
  ∃ more,
    foldl (λ order col,
             if bool_decide (col ∈ tc ∧ col ∉ order)
             then (order ++ [col])%list else order) order nums
    = (order ++ more)%list ∧
    NoDup (order ++ more)%list ∧ (∀ c, c ∈ more → c ∈ tc).
Proof.
  revert order. induction nums as [|col nums IH]; intros order Hnd Hsub.
  { exists []. rewrite app_nil_r. split_and!; [done..|].
    by intros c ?%not_elem_of_nil. }
  simpl. case_bool_decide as Hcol.
  - destruct Hcol as [Hin Hnin].
    destruct (IH (order ++ [col])%list) as (more & Heq & Hnd' & Hsub').
    { apply NoDup_app. split_and!; [done| |apply NoDup_singleton].
      intros c Hc ->%list_elem_of_singleton. done. }
    { intros c [Hc| ->%list_elem_of_singleton]%elem_of_app; [by apply Hsub|done]. }
    exists (col :: more). rewrite Heq, <- !(assoc_L (++)). simpl.
    rewrite <- (assoc_L (++)) in Hnd'. split_and!; [done..|].
    intros c [->|Hc]%elem_of_cons; [done|by apply Hsub'].
  - by apply IH.
Qed.

(** The list built from the columns [tc] of the table of details is a
    rearrangement of [tc] that starts with the core columns [tc] has. *)
Lemma columns_order_rearranges tc nums :
  NoDup tc →
  columns_order tc nums ≡ₚ tc ∧
  filter (λ c, c ∈ tc) core_order `prefix_of` columns_order tc nums.
Proof.
  intros Htc. unfold columns_order.
  set (order0 := filter (λ c, c ∈ tc) core_order).
  assert (NoDup order0) as Hnd0 by apply NoDup_filter, NoDup_core_order.
  assert (∀ c, c ∈ order0 → c ∈ tc) as Hsub0.
  { intros c [? _]%list_elem_of_filter. done. }
  assert ("Additional Information" ∉ order0) as Hai0.
  { intros [_ ?]%list_elem_of_filter. by apply additional_not_core. }
  destruct (numeric_loop tc nums order0 Hnd0 Hsub0) as (more & -> & Hnd1 & Hsub1).
  assert (∃ more',
    (if bool_decide ("Additional Information" ∈ tc)
     then ((if bool_decide ("Additional Information" ∈ (order0 ++ more)%list)
            then list_remove_first "Additional Information" (order0 ++ more)%list
            else (order0 ++ more)%list) ++ ["Additional Information"])%list
     else (order0 ++ more)%list) = (order0 ++ more')%list ∧
    NoDup (order0 ++ more')%list ∧ (∀ c, c ∈ more' → c ∈ tc))
    as (more' & -> & Hnd2 & Hsub2).
  { case_bool_decide as Hai; [|by exists more].
    case_bool_decide as Hin.
    - exists (list_remove_first "Additional Information" more
              ++ ["Additional Information"])%list.
      rewrite list_remove_first_app, <- (assoc_L (++)) by done.
      split; [done|].
      rewrite (assoc_L (++)), <- list_remove_first_app by done.
      split.
      + apply NoDup_app. split_and!.
        * by apply NoDup_list_remove_first.
        * intros c Hc ->%list_elem_of_singleton.
          apply elem_of_list_remove_first in Hc; [|done]. by destruct Hc.
        * apply NoDup_singleton.
      + intros c [Hc| ->%list_elem_of_singleton]%elem_of_app; [|done].
        apply NoDup_app in Hnd1 as (_ & _ & Hndm).
        apply elem_of_list_remove_first in Hc as [Hc _]; [|done].
        by apply Hsub1.
    - exists (more ++ ["Additional Information"])%list.
      rewrite <- (assoc_L (++)). split; [done|].
      rewrite (assoc_L (++)). split.
      + apply NoDup_app. split_and!; [done| |apply NoDup_singleton].
        intros c Hc ->%list_elem_of_singleton. done.
      + intros c [Hc| ->%list_elem_of_singleton]%elem_of_app;
          [by apply Hsub1|done]. }
  split.
  - apply NoDup_Permutation; [|done|].
    + apply NoDup_app. split_and!; [done| |by apply NoDup_filter].
      intros c Hc [Hnc _]%list_elem_of_filter. done.
    + intros c. rewrite elem_of_app, list_elem_of_filter. split.
      * intros [[Hc|Hc]%elem_of_app|[_ Hc]]; [by apply Hsub0|by apply Hsub2|done].
      * intros Hc.
        destruct (decide (c ∈ (order0 ++ more')%list)); [by left|by right].
  - exists (more' ++ filter (λ c, c ∉ (order0 ++ more')%list) tc)%list.
    by rewrite (assoc_L (++)).
Qed.

(** X14. When no two columns of the data have the same name, the table of
    details shows every column of the data except [Sheet] and [year], each
    exactly once, whatever columns are numeric. The core columns that exist
    come first, in their fixed order. *)
Theorem columns_order_permutation columns typed :
  NoDup columns →
  let order := columns_order (table_columns columns) (numeric_cols_all typed) in
  order ≡ₚ table_columns columns ∧
  NoDup order ∧
  (∀ c, c ∈ order ↔ c ∈ columns ∧ c ≠ "Sheet" ∧ c ≠ "year") ∧
  filter (λ c, c ∈ columns) core_order `prefix_of` order.
Proof.
  intros Hnd order.
  assert (NoDup (table_columns columns)) as Htc by by apply NoDup_filter.
  destruct (columns_order_rearranges (table_columns columns)
              (numeric_cols_all typed) Htc) as [Hperm Hpre].
  fold order in Hperm, Hpre. split_and!.
  - done.
  - by rewrite Hperm.
  - intros c. rewrite Hperm. unfold table_columns.
    rewrite list_elem_of_filter, !not_elem_of_cons.
    pose proof (not_elem_of_nil c). tauto.
  - replace (filter (λ c, c ∈ columns) core_order)
      with (filter (λ c, c ∈ table_columns columns) core_order); [done|].
    apply filter_ext_in. intros c Hc. unfold table_columns.
    rewrite list_elem_of_filter, !not_elem_of_cons.
    split; [tauto|]. intros Hin. split; [|done].
    split_and!; [..|apply not_elem_of_nil]; intros ->; revert Hc;
      apply (bool_decide_unpack _); by vm_compute.
Qed.

Lemma columns_order_permutation_witness :
  columns_order
    (table_columns ["Sheet"; "Date"; "Additional Information"; "Snow depth";
                    "Location"; "Name of Event"; "year"])
    (numeric_cols_all [("Snow depth", true); ("year", true); ("Date", false)])
  = ["Name of Event"; "Date"; "Location"; "Snow depth"; "Additional Information"]
  ∧ columns_order
      (table_columns ["Sheet"; "Date"; "Additional Information"; "Snow depth";
                      "Location"; "Name of Event"; "year"])
      (numeric_cols_all [("Snow depth", true); ("year", true); ("Date", false)])
    ≡ₚ table_columns ["Sheet"; "Date"; "Additional Information"; "Snow depth";
                      "Location"; "Name of Event"; "year"].
Proof.
  split; [reflexivity|].
  apply (columns_order_permutation
           ["Sheet"; "Date"; "Additional Information"; "Snow depth";
            "Location"; "Name of Event"; "year"]
           [("Snow depth", true); ("year", true); ("Date", false)]).
  apply (bool_decide_unpack _). by vm_compute.
Defined.

(** ** Colours of the types *)

Lemma NoDup_color_palette : NoDup color_palette.
Proof. apply (bool_decide_unpack _). by vm_compute. Qed.

Lemma sheet_color_map_snoc l sheet :
  sheet_color_map (l ++ [sheet])%list =
  <[sheet := default "" (color_palette !! (length l `mod` length color_palette)%nat)]>
    (sheet_color_map l).
Proof.
  unfold sheet_color_map. rewrite imap_app, foldl_app. simpl.
  by rewrite Nat.add_0_r.
Qed.

Lemma sheet_color_map_absent l sheet :
  sheet ∉ l → sheet_color_map l !! sheet = None.
Proof.
  induction l as [|x l IH] using rev_ind; [done|].
  rewrite sheet_color_map_snoc. intros Hnin.
  apply not_elem_of_app in Hnin as [Hl Hx%not_elem_of_cons].
  rewrite lookup_insert_ne by (intros ->; tauto). by apply IH.
Qed.

Lemma sheet_color_map_lookup l i sheet :
  NoDup l → l !! i = Some sheet →
  sheet_color_map l !! sheet = color_palette !! (i `mod` 10)%nat.
Proof.
  induction l as [|x l IH] using rev_ind; [done|].
  intros [Hl [Hx _]]%NoDup_app Hi. rewrite sheet_color_map_snoc.
  destruct (decide (i < length l)%nat) as [Hlt|Hge].
  - rewrite lookup_app_l in Hi by done.
    rewrite lookup_insert_ne; [by apply IH|].
    intros ->. apply (Hx sheet); [by eapply list_elem_of_lookup_2|left].
  - rewrite lookup_app_r in Hi by lia.
    apply list_lookup_singleton_Some in Hi as [Hi ->].
    assert (i = length l) as -> by lia.
    rewrite lookup_insert_eq. change (length color_palette) with 10%nat.
    destruct (lookup_lt_is_Some_2 color_palette (length l `mod` 10)%nat)
      as [c Hc];
      [change (length color_palette) with 10%nat; apply Nat.mod_upper_bound; lia|].
    by rewrite Hc.
Qed.

(** X15. Every type of the data has a colour of the palette: the type at
    position [i] of the sorted types has colour [i mod 10]. Among the first
    ten types no two share a colour; the type ten places further on has the
    same colour again. A name that is not a type of the data is black. *)
Theorem sheet_colors df :
  (∀ i sheet, all_sheets df !! i = Some sheet →
     Some (color_of (all_sheets df) sheet) = color_palette !! (i `mod` 10)%nat) ∧
  (∀ i j s t, (i < 10)%nat → (j < 10)%nat →
     all_sheets df !! i = Some s → all_sheets df !! j = Some t →
     color_of (all_sheets df) s = color_of (all_sheets df) t → s = t) ∧
  (∀ i s t,
     all_sheets df !! i = Some s → all_sheets df !! (i + 10)%nat = Some t →
     color_of (all_sheets df) s = color_of (all_sheets df) t) ∧
  (∀ sheet, (∀ r, r ∈ df → Sheet r ≠ Some sheet) →
     color_of (all_sheets df) sheet = "#000000").
Proof.
  assert (NoDup (all_sheets df)) as Hnd.
  { unfold all_sheets, type_options. rewrite merge_sort_Permutation.
    apply NoDup_remove_dups. }
  assert (∀ i sheet, all_sheets df !! i = Some sheet →
     Some (color_of (all_sheets df) sheet) = color_palette !! (i `mod` 10)%nat)
    as Hcol.
  { intros i sheet Hi. unfold color_of.
    rewrite (sheet_color_map_lookup _ i) by done.
    destruct (lookup_lt_is_Some_2 color_palette (i `mod` 10)%nat) as [c Hc];
      [change (length color_palette) with 10%nat; apply Nat.mod_upper_bound; lia|].
    by rewrite Hc. }
  split_and!.
  - exact Hcol.
  - intros i j s t Hi Hj Hs Ht Heq.
    pose proof (Hcol i s Hs) as Hci. pose proof (Hcol j t Ht) as Hcj.
    rewrite Nat.mod_small in Hci, Hcj by done. rewrite Heq in Hci.
    assert (i = j) as ->.
    { eapply NoDup_lookup; [apply NoDup_color_palette|done..]. }
    congruence.
  - intros i s t Hs Ht.
    pose proof (Hcol i s Hs) as Hci. pose proof (Hcol _ t Ht) as Hcj.
    replace ((i + 10) `mod` 10)%nat with (i `mod` 10)%nat in Hcj.
    + congruence.
    + rewrite <- (Nat.Div0.add_mod_idemp_r i 10 10).
      by rewrite Nat.Div0.mod_same, Nat.add_0_r.
  - intros sheet Hno. unfold color_of.
    rewrite sheet_color_map_absent; [done|].
    intros Hin. apply elem_of_type_options in Hin as (r & Hr & Hs).
    by apply (Hno r).
Qed.

(** ** The caption of the map *)

Lemma list_min_spec y l :
  list_min y l ∈ y :: l ∧ ∀ z, z ∈ y :: l → list_min y l ≤ z.
Proof.
  induction l as [|x l [Hin Hle]]; simpl.
  { split; [left|]. by intros z ->%list_elem_of_singleton. }
  split.
  - destruct (Z.min_spec x (list_min y l)) as [[_ ->]|[_ ->]].
    + right; left.
    + apply elem_of_cons in Hin as [->|Hin]; [left|right; by right].
  - intros z Hz.
    assert (z = x ∨ z ∈ y :: l) as [->|Hz'].
    { rewrite !elem_of_cons in *. tauto. }
    + lia.
    + specialize (Hle z Hz'). lia.
Qed.

Lemma list_max_spec y l :
  list_max y l ∈ y :: l ∧ ∀ z, z ∈ y :: l → z ≤ list_max y l.
Proof.
  induction l as [|x l [Hin Hle]]; simpl.
  { split; [left|]. by intros z ->%list_elem_of_singleton. }
  split.
  - destruct (Z.max_spec x (list_max y l)) as [[_ ->]|[_ ->]].
    + apply elem_of_cons in Hin as [->|Hin]; [left|right; by right].
    + right; left.
  - intros z Hz.
    assert (z = x ∨ z ∈ y :: l) as [->|Hz'].
    { rewrite !elem_of_cons in *. tauto. }
    + lia.
    + specialize (Hle z Hz'). lia.
Qed.

(** X16. The caption of the map covers the events it counts. With no year
    to select from it reads [all years] and no event is shown; with one
    year it names that year and every event shown is of that year; with
    more it names the earliest and the latest selected year, and every
    event shown lies between them. *)
Theorem year_text_covers_rows df selected_years selected_types :
  (selected_years = [] →
     year_text selected_years = "all years" ∧
     filtered df selected_years selected_types = []) ∧
  (∀ y, selected_years = [y] →
     year_text selected_years = pretty y ∧
     ∀ r, r ∈ filtered df selected_years selected_types → year r = Some y) ∧
  ((1 < length selected_years)%nat →
     ∃ lo hi,
       year_text selected_years = pretty lo +:+ en_dash +:+ pretty hi ∧
       lo ∈ selected_years ∧ hi ∈ selected_years ∧
       (∀ y, y ∈ selected_years → lo ≤ y ≤ hi) ∧
       ∀ r, r ∈ filtered df selected_years selected_types →
            ∃ y, year r = Some y ∧ lo ≤ y ≤ hi).
Proof.
  assert (∀ r, r ∈ filtered df selected_years selected_types →
               ∃ y, year r = Some y ∧ y ∈ selected_years) as Hrows.
  { intros r [Hm _]%list_elem_of_filter. by apply mask_true in Hm as [? _]. }
  split_and!.
  - intros ->. split; [done|].
    apply filter_none. intros r Hm.
    apply mask_true in Hm as [(y & _ & Hy) _]. by apply not_elem_of_nil in Hy.
  - intros y ->. split; [done|].
    intros r (z & Hz & ->%list_elem_of_singleton)%Hrows. done.
  - intros Hlen. destruct selected_years as [|y rest]; [simpl in Hlen; lia|].
    destruct (list_min_spec y rest) as [Hlo_in Hlo].
    destruct (list_max_spec y rest) as [Hhi_in Hhi].
    exists (list_min y rest), (list_max y rest). split_and!; [|done..| |].
    + unfold year_text. apply Nat.ltb_lt in Hlen. by rewrite Hlen.
    + intros z Hz. split; [by apply Hlo|by apply Hhi].
    + intros r (z & Hz & Hin)%Hrows. exists z. split; [done|].
      split; [by apply Hlo|by apply Hhi].
Qed.

(** ** Loading the table *)

Section LoadMore.
Variable float_of_str : string → option float.

Local Abbreviation to_num := (to_numeric float_of_str).
Local Abbreviation load := (load_events float_of_str).

(** X17. [load_events] neither invents nor reorders rows: the rows it
    returns are stored rows, in the stored order, with their type, place and
    date unchanged, and the year of a row is the year of its date (none
    when the date is missing). A stored row whose two coordinates are
    numbers, neither of them NaN, is returned with these numbers. *)
Theorem load_events_keeps_stored_rows table :
  (λ r, (Sheet r, Location r, Date r)) <$> load table
    `sublist_of` (λ s, (st_Sheet s, st_Location s, st_Date s)) <$> table ∧
  (∀ r, r ∈ load table →
     year r = ts_year <$> Date r ∧
     ∃ s, s ∈ table ∧
          Sheet r = st_Sheet s ∧ Location r = st_Location s ∧
          Date r = st_Date s ∧
          Latitude r = to_num (st_Latitude s) ∧
          Longitude r = to_num (st_Longitude s)) ∧
  (∀ s lat lon,
     s ∈ table →
     st_Latitude s = PyFloat lat → st_Longitude s = PyFloat lon →
     is_nan lat = false → is_nan lon = false →
     {| Sheet := st_Sheet s; Location := st_Location s; Date := st_Date s;
        Latitude := lat; Longitude := lon;
        year := ts_year <$> st_Date s |} ∈ load table).
Proof.
  split_and!.
  - induction table as [|s table IH]; [done|].
    rewrite load_events_cons, fmap_cons. case_decide.
    + rewrite fmap_cons. by apply sublist_skip.
    + by apply sublist_cons.
  - induction table as [|s table IH]; [by intros r ?%not_elem_of_nil|].
    intros r. rewrite load_events_cons. case_decide.
    + intros [->|Hr]%elem_of_cons.
      * split; [done|]. exists s. split; [left|done].
      * destruct (IH r Hr) as (Hy & s' & Hs' & Heq).
        split; [done|]. exists s'. split; [by right|done].
    + intros Hr. destruct (IH r Hr) as (Hy & s' & Hs' & Heq).
      split; [done|]. exists s'. split; [by right|done].
  - intros s lat lon Hs Hlat Hlon Hnlat Hnlon.
    induction table as [|s' table IH]; [by apply not_elem_of_nil in Hs|].
    rewrite load_events_cons.
    apply elem_of_cons in Hs as [<-|Hs].
    + rewrite decide_True.
      * unfold to_numeric. rewrite Hlat, Hlon. left.
      * unfold to_numeric. by rewrite Hlat, Hlon.
    + case_decide; [right|]; by apply IH.
Qed.
End LoadMore.

End AppMore.
